(** * desida.prodjobs: queue accounting of production jobs

    A shallow embedding of [py/desida/prodjobs.py] and the properties of
    its aggregation ([load_qinfo]) and reduction ([summarize_qinfo]).

    Conventions of the embedding.
    - A Python [str] is a [string]; its characters are the code points
      below 256.
    - A Python [int] is a [Z].
    - A float ([float], [numpy.float64]) is the rational number it
      denotes, a [Q], and arithmetic on it is exact: binary64 rounding,
      [nan] and [inf] are outside the model.  The conversion of an [int]
      to a float is inside it: it raises [OverflowError] beyond the range
      of binary64.  Values of [Q] are compared with [==].
    - A raised exception is the [Raise] case of [result].
    - An astropy [Table] is the list of its rows, each row a record of
      the columns the code reads.
    - A [dict] is an association list in insertion order.
    - A value of a column of strings is a [text]: a [str] or a [bytes],
      as the dtype of the column has it. *)

From Stdlib Require Import List String Ascii ZArith QArith Qround Qabs.
From Stdlib Require Import Bool Lia Lqa Permutation Sorted.
From Stdlib Require Decimal DecimalString DecimalNat.
Import ListNotations.

Local Open Scope string_scope.
Local Open Scope Z_scope.

(** ** The Python runtime the module relies on *)

Module Py.

Inductive exn : Type :=
| ValueError
| IndexError
| KeyError
| OverflowError.

Inductive result (A : Type) : Type :=
| OK (a : A)
| Raise (e : exn).

Arguments OK {A} a.
Arguments Raise {A} e.

Definition bind {A B : Type} (m : result A) (k : A -> result B) : result B :=
  match m with
  | OK a => k a
  | Raise e => Raise e
  end.

(** [[f(x) for x in xs]], stopping at the first exception. *)
Fixpoint mapM {A B : Type} (f : A -> result B) (xs : list A) : result (list B) :=
  match xs with
  | [] => OK []
  | x :: xs' =>
      bind (f x) (fun y => bind (mapM f xs') (fun ys => OK (y :: ys)))
  end.

(** [s.startswith(prefix)] *)
Fixpoint startswith (s prefix : string) {struct prefix} : bool :=
  match prefix with
  | EmptyString => true
  | String p prefix' =>
      match s with
      | EmptyString => false
      | String c s' => Ascii.eqb c p && startswith s' prefix'
      end
  end.

(** [s.count(sub)]: the number of occurrences of [sub] in [s] that do
    not overlap, scanning from the left.  [skip] characters are still
    covered by the occurrence found last. *)
Fixpoint count_from (sub : string) (skip : nat) (s : string) : Z :=
  match s with
  | EmptyString =>
      match sub, skip with
      | EmptyString, O => 1
      | _, _ => 0
      end
  | String _ s' =>
      match skip with
      | S k => count_from sub k s'
      | O =>
          if startswith s sub
          then 1 + count_from sub (Nat.pred (String.length sub)) s'
          else count_from sub O s'
      end
  end.

Definition count (s sub : string) : Z := count_from sub O s.

(** [s.replace(old, new)] for a non-empty [old]: every occurrence,
    found from the left without overlap. *)
Fixpoint replace_from (old new : string) (skip : nat) (s : string) : string :=
  match s with
  | EmptyString => EmptyString
  | String c s' =>
      match skip with
      | S k => replace_from old new k s'
      | O =>
          if startswith s old
          then new ++ replace_from old new (Nat.pred (String.length old)) s'
          else String c (replace_from old new O s')
      end
  end.

Definition replace (s old new : string) : string := replace_from old new O s.

(** [s.split(sep)] for a separator of one character. *)
Fixpoint split (sep : ascii) (s : string) : list string :=
  match s with
  | EmptyString => [EmptyString]
  | String c s' =>
      if Ascii.eqb c sep then EmptyString :: split sep s'
      else
        match split sep s' with
        | [] => [String c EmptyString]
        | field :: fields => String c field :: fields
        end
  end.

(** [sep.join(fields)] *)
Fixpoint join (sep : ascii) (fields : list string) : string :=
  match fields with
  | [] => EmptyString
  | [f] => f
  | f :: fs => f ++ String sep (join sep fs)
  end.

(** [s.rfind(c)] as the part of [s] after the last [c], when there is
    one. *)
Fixpoint after_last (c : ascii) (s : string) : option string :=
  match s with
  | EmptyString => None
  | String a s' =>
      match after_last c s' with
      | Some t => Some t
      | None => if Ascii.eqb a c then Some s' else None
      end
  end.

(** The part of [s] before the last [c], when there is one. *)
Fixpoint before_last (c : ascii) (s : string) : option string :=
  match s with
  | EmptyString => None
  | String a s' =>
      match before_last c s' with
      | Some t => Some (String a t)
      | None => if Ascii.eqb a c then Some EmptyString else None
      end
  end.

(** Whitespace as [int] sees it: tab to carriage return and the space,
    and of the code points from 128 on the two that Unicode calls
    spaces.  The separators 28 to 31 are not among them. *)
Definition isspace (c : ascii) : bool :=
  let n := nat_of_ascii c in
  ((9 <=? n)%nat && (n <=? 13)%nat)
  || (n =? 32)%nat || (n =? 133)%nat || (n =? 160)%nat.

Definition digit_value (c : ascii) : option Z :=
  let n := nat_of_ascii c in
  if ((48 <=? n)%nat && (n <=? 57)%nat)%bool
  then Some (Z.of_nat n - 48)
  else None.

Fixpoint lstrip (s : string) : string :=
  match s with
  | EmptyString => EmptyString
  | String c s' => if isspace c then lstrip s' else s
  end.

Fixpoint rstrip (s : string) : string :=
  match s with
  | EmptyString => EmptyString
  | String c s' =>
      match rstrip s' with
      | EmptyString => if isspace c then EmptyString else String c EmptyString
      | r => String c r
      end
  end.

(** The digits of a decimal literal: single underscores may separate
    digits.  [after_digit] says that the previous character was a
    digit. *)
Fixpoint digits (acc : Z) (after_digit : bool) (s : string) : option Z :=
  match s with
  | EmptyString => if after_digit then Some acc else None
  | String c s' =>
      match digit_value c with
      | Some d => digits (10 * acc + d) true s'
      | None =>
          if (Ascii.eqb c "_" && after_digit)%bool
          then digits acc false s'
          else None
      end
  end.

(** [int(s)], base 10. *)
Definition int (s : string) : result Z :=
  let t := rstrip (lstrip s) in
  let signed :=
    match t with
    | String "+" r => digits 0 false r
    | String "-" r => option_map Z.opp (digits 0 false r)
    | _ => digits 0 false t
    end in
  match signed with
  | Some z => OK z
  | None => Raise ValueError
  end.

(** The first integer too large for a float: from [2^1024 - 2^970] on,
    the nearest binary64 value would be [2^1024]. *)
Definition float_overflow : Z := 2 ^ 1024 - 2 ^ 970.

(** The conversion of an [int] to a float, as [int + float] and
    [int / float] do it. *)
Definition float_of_int (n : Z) : result Q :=
  if Z.abs n <? float_overflow then OK (inject_Z n) else Raise OverflowError.

(** A string value taken out of a column: a [str] of a column of dtype
    [U], a [bytes] of a column of dtype [S].  A [str] and a [bytes] are
    never equal, nor are they the same key of a [dict]. *)
Inductive text : Type :=
| PyStr (s : string)
| PyBytes (s : string).

Definition chars (x : text) : string :=
  match x with
  | PyStr s => s
  | PyBytes s => s
  end.

Definition text_eqb (x y : text) : bool :=
  match x, y with
  | PyStr a, PyStr b => String.eqb a b
  | PyBytes a, PyBytes b => String.eqb a b
  | _, _ => false
  end.

(** The order in which values of one kind are sorted; a column holds one
    kind only. *)
Definition text_ltb (x y : text) : bool :=
  match x, y with
  | PyStr a, PyStr b => String.ltb a b
  | PyBytes a, PyBytes b => String.ltb a b
  | PyBytes _, PyStr _ => true
  | PyStr _, PyBytes _ => false
  end.

Definition text_leb (x y : text) : bool :=
  match x, y with
  | PyStr a, PyStr b => String.leb a b
  | PyBytes a, PyBytes b => String.leb a b
  | PyBytes _, PyStr _ => true
  | PyStr _, PyBytes _ => false
  end.

(** [sorted(xs)] on strings, by code points. *)
Fixpoint insert_sorted (x : string) (xs : list string) : list string :=
  match xs with
  | [] => [x]
  | y :: ys => if String.ltb x y then x :: xs else y :: insert_sorted x ys
  end.

Fixpoint sorted (xs : list string) : list string :=
  match xs with
  | [] => []
  | x :: xs' => insert_sorted x (sorted xs')
  end.

(** [os.path.basename(p)] *)
Definition basename (p : string) : string :=
  match after_last "/" p with
  | Some t => t
  | None => p
  end.

Fixpoint all_dots (s : string) : bool :=
  match s with
  | EmptyString => true
  | String c s' => Ascii.eqb c "." && all_dots s'
  end.

(** [os.path.splitext(p)[0]] for a [p] without directory part: the
    last dot starts the extension unless only dots come before it. *)
Definition splitext_root (p : string) : string :=
  match before_last "." p with
  | Some root => if all_dots root then p else root
  | None => p
  end.

End Py.

Import Py.

Notation "x <- m ;; k" := (bind m (fun x => k))
  (at level 61, m at next level, right associativity).

(** ** The numpy operations the module relies on *)

Module Np.

(** [np.sum(xs)] *)
Definition sum (xs : list Q) : Q := fold_left Qplus xs 0%Q.

(** [np.rint(x)]: the nearest integer, a tie going to the even one. *)
Definition rint (x : Q) : Z :=
  let f := Qfloor x in
  match Qcompare (x - inject_Z f) (1 # 2) with
  | Lt => f
  | Gt => f + 1
  | Eq => if Z.even f then f else f + 1
  end.

(** [x.round(decimals)] and [round(x, decimals)] for [decimals >= 0]:
    scale by the power of ten, round to the nearest integer, scale back. *)
Definition round (x : Q) (decimals : nat) : Q :=
  let scale := inject_Z (10 ^ Z.of_nat decimals) in
  (inject_Z (rint (x * scale)) / scale)%Q.

(** [np.count_nonzero(mask)] *)
Definition count_nonzero (mask : list bool) : Z :=
  Z.of_nat (List.length (filter (fun b => b) mask)).

(** [np.any(mask)] *)
Definition any (mask : list bool) : bool := existsb (fun b => b) mask.

Fixpoint insert_sorted (x : text) (xs : list text) : list text :=
  match xs with
  | [] => [x]
  | y :: ys => if text_ltb x y then x :: xs else y :: insert_sorted x ys
  end.

Fixpoint sort (xs : list text) : list text :=
  match xs with
  | [] => []
  | x :: xs' => insert_sorted x (sort xs')
  end.

Fixpoint drop_repeats (xs : list text) : list text :=
  match xs with
  | [] => []
  | x :: xs' =>
      match xs' with
      | [] => [x]
      | y :: _ => if text_eqb x y then drop_repeats xs' else x :: drop_repeats xs'
      end
  end.

(** [np.unique(xs)] on a column of strings: the distinct values,
    sorted. *)
Definition unique (xs : list text) : list text :=
  drop_repeats (sort xs).

(** [np.concatenate(arrays)]; numpy refuses an empty sequence. *)
Definition concatenate (arrays : list (list Z)) : result (list Z) :=
  match arrays with
  | [] => Raise ValueError
  | _ => OK (List.concat arrays)
  end.

End Np.

(** ** Tables *)

(** A processing table: the columns [load_qinfo] reads.  [JOBDESC] is
    the characters of the job description; [BYTES] says that the column
    holds [bytes] (dtype [S]) and not [str] (dtype [U]), which is up to
    the file and to [load_table].  A column holds one kind; here every
    row carries the kind, and the tables whose rows agree on it are the
    tables there are. *)
Module ProcTable.
Record row : Type := mk {
  JOBDESC : string;
  ALL_QIDS : list Z;
  BYTES : bool
}.
Definition t : Type := list row.

(** [ptab['JOBDESC'][i]], the value with its kind. *)
Definition jobdesc (r : row) : text :=
  if BYTES r then PyBytes (JOBDESC r) else PyStr (JOBDESC r).
End ProcTable.

(** What the queue returns for a list of job ids: one record per id,
    with the twelve columns asked for. *)
Module Queue.
Record record : Type := mk {
  JOBID : Z;
  JOBNAME : string;
  PARTITION : string;
  CONSTRAINTS : string;
  NNODES : Z;
  SUBMIT : string;
  ELIGIBLE : string;
  START : string;
  END_ : string;
  ELAPSED : string;
  STATE : string;
  EXITCODE : string
}.
End Queue.

(** The table of queue information: the queue's columns, the job
    description and the two derived columns. *)
Module QInfo.
Record row : Type := mk {
  JOBID : Z;
  JOBNAME : string;
  PARTITION : string;
  CONSTRAINTS : string;
  NNODES : Z;
  SUBMIT : string;
  ELIGIBLE : string;
  START : string;
  END_ : string;
  ELAPSED : string;
  STATE : string;
  EXITCODE : string;
  JOBDESC : string;
  NODE_HOURS : Q;
  GPU : Z
}.
Record table : Type := mkTable {
  rows : list row;
  meta : list (string * string)
}.
End QInfo.

(** The summary table: rows of cells under column names. *)
Module Summary.
Inductive cell : Type :=
| Str (s : string)
| Float (x : Q)
| Int (n : Z).

Record table : Type := mk {
  names : list string;
  rows : list (list cell)
}.

Fixpoint lookup (names : list string) (row : list cell) (name : string)
  : option cell :=
  match names, row with
  | n :: names', c :: row' =>
      if String.eqb n name then Some c else lookup names' row' name
  | _, _ => None
  end.

(** [t[name]]: the column, when every row has it. *)
Fixpoint column (names : list string) (rows : list (list cell)) (name : string)
  : option (list cell) :=
  match rows with
  | [] => Some []
  | r :: rows' =>
      match lookup names r name, column names rows' name with
      | Some c, Some cs => Some (c :: cs)
      | _, _ => None
      end
  end.
End Summary.

(** A [dict] from job description to job ids, in insertion order.  Its
    keys are the values [np.unique] gives and the [str] "zpix". *)
Definition dict : Type := list (text * list Z).

Fixpoint dict_get (d : dict) (key : text) : option (list Z) :=
  match d with
  | [] => None
  | (k, v) :: d' => if text_eqb k key then Some v else dict_get d' key
  end.

(** [d[key] = value]: an existing key keeps its place. *)
Fixpoint dict_set (d : dict) (key : text) (value : list Z) : dict :=
  match d with
  | [] => [(key, value)]
  | (k, v) :: d' =>
      if text_eqb k key then (k, value) :: d'
      else (k, v) :: dict_set d' key value
  end.

(** ** The collaborators outside the module

    [desispec.io.findfile] and [desispec.io.specprod_root], [glob.glob],
    [desispec.workflow.tableio.load_table],
    [desispec.workflow.queue.queue_info_from_qids] and [os.environ].

    [findfile_proctable] and [specprod_root] are what the two functions
    of [desispec.io] answer when they return.  When one of them raises,
    as they do when no production is named, neither by the argument nor
    by the environment, [load_qinfo] ends there with its exception; the
    properties below are about the runs in which they return. *)

Class Collaborators : Type := {
  (** [findfile('proctable', night='99999999', specprod=specprod, readonly=True)] *)
  findfile_proctable : option string -> string;
  specprod_root : option string -> string;
  glob : string -> list string;
  load_table : string -> ProcTable.t;
  queue_info_from_qids : list Z -> result (list Queue.record);
  environ : string -> option string
}.

(** ** prodjobs.py *)

Section Prodjobs.

Context {world : Collaborators}.

Definition load_proctables (specprod : option string) : list ProcTable.t :=
  let procfiletemplate := findfile_proctable specprod in
  let procfiles := sorted (glob (replace procfiletemplate "99999999" "202?????")) in
  map load_table procfiles.

(** [int(hh) + int(mm)/60. + int(ss)/3600.], in the order Python
    evaluates it: the minutes are read and divided, the hours are added to
    them, then the seconds are read and divided.  Each of the three
    integers is made a float by the division or the addition it enters. *)
Definition hhmmss2hours (hhmmss : string) : result Q :=
  match split ":" hhmmss with
  | [hh; mm; ss] =>
      h <- int hh ;;
      m <- int mm ;;
      minutes <- float_of_int m ;;
      hours <- float_of_int h ;;
      s <- int ss ;;
      seconds <- float_of_int s ;;
      OK (hours + minutes / 60 + seconds / 3600)%Q
  | _ => Raise ValueError
  end.

(** The body of the loop of [get_zpix_qids]: the id of one log file, or
    the [ValueError] that makes the loop skip it. *)
Definition zpix_qid (filename : string) : result Z :=
  int (last (split "-" (splitext_root (basename filename))) EmptyString).

Definition get_zpix_qids (specprod : option string) : list Z :=
  let proddir := specprod_root specprod in
  let zpixlogs := sorted (glob (proddir ++ "/run/scripts/healpix/*/*/*/zpix-*.log")) in
  fold_left
    (fun zpix_qids filename =>
       match zpix_qid filename with
       | OK qid => (zpix_qids ++ [qid])%list
       | Raise _ => zpix_qids
       end)
    zpixlogs [].

(** One turn of the inner loop of [load_qinfo]: the ids of the rows of
    [ptab] with this job description are added to the dictionary. *)
Definition add_jobdesc (ptab : ProcTable.t) (jobdesc_qids : dict) (jobdesc : text)
  : result dict :=
  let ii := filter (fun r => text_eqb (ProcTable.jobdesc r) jobdesc) ptab in
  qids <- Np.concatenate (map ProcTable.ALL_QIDS ii) ;;
  match dict_get jobdesc_qids jobdesc with
  | None => OK (dict_set jobdesc_qids jobdesc qids)
  | Some present => OK (dict_set jobdesc_qids jobdesc (present ++ qids)%list)
  end.

Fixpoint foldM {A B : Type} (f : A -> B -> result A) (xs : list B) (a : A)
  : result A :=
  match xs with
  | [] => OK a
  | x :: xs' => a' <- f a x ;; foldM f xs' a'
  end.

(** The first part of [load_qinfo]: job ids by job description, from the
    processing tables, and the zpix ids from the names of the logs. *)
Definition jobdesc_qids_of (specprod : option string) : result dict :=
  let ptables := load_proctables specprod in
  jobdesc_qids <-
    foldM (fun d ptab =>
             foldM (add_jobdesc ptab) (Np.unique (map ProcTable.jobdesc ptab)) d)
          ptables [] ;;
  OK (dict_set jobdesc_qids (PyStr "zpix") (get_zpix_qids specprod)).

(** A record of the queue under its job description, the characters the
    [JOBDESC] column of the stacked table holds; the derived columns are
    added by [derive]. *)
Definition Stacked : Type := (Queue.record * string)%type.

(** The second part: the queue information of every key of the
    dictionary, stacked.  The [JOBDESC] column of each part is filled
    with the key; stacked with the part of the [str] "zpix", it holds the
    characters of the keys, whatever their kind. *)
Definition stack_qinfo (jobdesc_qids : dict) : result (list Stacked) :=
  qinfo_tables <-
    mapM (fun '(jobdesc, qids) =>
            jobdesc_qinfo <- queue_info_from_qids qids ;;
            OK (map (fun r => (r, chars jobdesc)) jobdesc_qinfo))
         jobdesc_qids ;;
  OK (List.concat qinfo_tables).

(** The row of the final table for a stacked record, given its hours and
    whether any state of the table starts with "CANCELLED by". *)
Definition derive_row (any_cancelled : bool) (r : Stacked) (hours : Q) : QInfo.row :=
  let q := fst r in
  {| QInfo.JOBID := Queue.JOBID q;
     QInfo.JOBNAME := Queue.JOBNAME q;
     QInfo.PARTITION := Queue.PARTITION q;
     QInfo.CONSTRAINTS := Queue.CONSTRAINTS q;
     QInfo.NNODES := Queue.NNODES q;
     QInfo.SUBMIT := Queue.SUBMIT q;
     QInfo.ELIGIBLE := Queue.ELIGIBLE q;
     QInfo.START := Queue.START q;
     QInfo.END_ := Queue.END_ q;
     QInfo.ELAPSED := Queue.ELAPSED q;
     QInfo.STATE :=
       if (any_cancelled && startswith (Queue.STATE q) "CANCELLED by")%bool
       then "CANCELLED" else Queue.STATE q;
     QInfo.EXITCODE := Queue.EXITCODE q;
     QInfo.JOBDESC := snd r;
     QInfo.NODE_HOURS := Np.round (hours * inject_Z (Queue.NNODES q)) 4;
     QInfo.GPU := if count (Queue.CONSTRAINTS q) "gpu" >? 0 then 1 else 0 |}.

(** The third part: the derived columns and the name of the production. *)
Definition derive (specprod : option string) (qinfo : list Stacked)
  : result QInfo.table :=
  hours <- mapM (fun r => hhmmss2hours (Queue.ELAPSED (fst r))) qinfo ;;
  let ii := map (fun r => startswith (Queue.STATE (fst r)) "CANCELLED by") qinfo in
  let rows := map (fun rh => derive_row (Np.any ii) (fst rh) (snd rh))
                  (combine qinfo hours) in
  name <-
    match specprod with
    | None =>
        match environ "SPECPROD" with
        | Some v => OK v
        | None => Raise KeyError
        end
    | Some v => OK v
    end ;;
  OK {| QInfo.rows := rows; QInfo.meta := [("SPECPROD", name)] |}.

Definition load_qinfo (specprod : option string) : result QInfo.table :=
  jobdesc_qids <- jobdesc_qids_of specprod ;;
  qinfo <- stack_qinfo jobdesc_qids ;;
  derive specprod qinfo.

End Prodjobs.

Definition jobstates : list string :=
  ["COMPLETED"; "TIMEOUT"; "FAILED"; "CANCELLED"; "NODE_FAIL"].

Definition jobdescs : list string :=
  ["linkcal"; "nightlybias"; "ccdcalib"; "arc"; "psfnight"; "flat"; "nightlyflat";
   "tilenight"; "cumulative"; "zpix"].

(** [xs[0]] *)
Definition first {A : Type} (xs : list A) : result A :=
  match xs with
  | [] => Raise IndexError
  | x :: _ => OK x
  end.

(** The body of the loop of [summarize_qinfo]: the row of one job
    description.  With a total of zero the percentage of the source is
    [nan]; here the quotient by zero is the 0 of [Q]. *)
Definition summary_row (qinfo : QInfo.table) (tot_hours : Q) (jobdesc : string)
  : result (list Summary.cell) :=
  let jobdesc_qinfo :=
    filter (fun r => String.eqb (QInfo.JOBDESC r) jobdesc) (QInfo.rows qinfo) in
  gpu <- first (map QInfo.GPU jobdesc_qinfo) ;;
  let cpugpu := if gpu =? 0 then "cpu" else "gpu" in
  let node_hours := Np.round (Np.sum (map QInfo.NODE_HOURS jobdesc_qinfo)) 1 in
  let percent_time := Np.round (100 * node_hours / tot_hours) 1 in
  OK ([Summary.Str jobdesc; Summary.Str cpugpu;
       Summary.Float node_hours; Summary.Float percent_time]
      ++ map (fun state =>
                Summary.Int
                  (Np.count_nonzero
                     (map (fun r => String.eqb (QInfo.STATE r) state) jobdesc_qinfo)))
             jobstates)%list.

Definition summarize_qinfo (qinfo : QInfo.table) : result Summary.table :=
  let tot_hours := Np.sum (map QInfo.NODE_HOURS (QInfo.rows qinfo)) in
  rows <- mapM (summary_row qinfo tot_hours) jobdescs ;;
  OK {| Summary.names := (["JOBDESC"; "CPUGPU"; "NODE_HOURS"; "PERCENT"] ++ jobstates)%list;
        Summary.rows := rows |}.

(** An error-free reading of the loop of [summarize_qinfo], to state what
    its result is: does [qinfo] have a row with this job description? *)
Definition has_jobdesc (qinfo : QInfo.table) (jobdesc : string) : Prop :=
  exists r, In r (QInfo.rows qinfo) /\ QInfo.JOBDESC r = jobdesc.

(** ** Notions the properties are stated with *)

(** [sub in s] *)
Definition substring_of (sub s : string) : Prop :=
  exists before after, s = before ++ sub ++ after.

Fixpoint has_char (c : ascii) (s : string) : bool :=
  match s with
  | EmptyString => false
  | String a s' => Ascii.eqb a c || has_char c s'
  end.

(** [s] is the three fields [hh], [mm] and [ss] with a colon between
    them. *)
Definition elapsed_fields (s hh mm ss : string) : Prop :=
  s = hh ++ ":" ++ mm ++ ":" ++ ss
  /\ has_char ":" hh = false /\ has_char ":" mm = false /\ has_char ":" ss = false.

(** An elapsed time is well formed when it is three fields, each of which
    [int] reads as an integer. *)
Definition well_formed_elapsed (s : string) : Prop :=
  exists hh mm ss h m sec,
    elapsed_fields s hh mm ss /\ int hh = OK h /\ int mm = OK m /\ int ss = OK sec.

(** The decimal numeral of a natural number, as Python prints it. *)
Definition decimal (n : nat) : string :=
  DecimalString.NilZero.string_of_uint (Nat.to_uint n).

(** The records that the queue gave, one list for each entry of the
    dictionary, in one list: each record with the characters of the key
    it was asked under. *)
Definition stacked (jobdesc_qids : dict) (answers : list (list Queue.record))
  : list Stacked :=
  List.concat
    (map (fun asked => map (fun r => (r, chars (fst (fst asked)))) (snd asked))
         (combine jobdesc_qids answers)).

(** The string of the digits of [u], leading zeros included. *)
Definition numeral (u : Decimal.uint) : string :=
  DecimalString.NilEmpty.string_of_uint u.

(** The hours of an elapsed time too long for a float: 1 and 400
    zeros. *)
Definition long_hours : string :=
  "10000000000000000000000000000000000000000000000000000000000000000000000000000000000000000000000000000000000000000000000000000000000000000000000000000000000000000000000000000000000000000000000000000000000000000000000000000000000000000000000000000000000000000000000000000000000000000000000000000000000000000000000000000000000000000000000000000000000000000000000000000000000000000000000000000000000000000".

(** The names of the columns of the summary. *)
Definition summary_names : list string :=
  ["JOBDESC"; "CPUGPU"; "NODE_HOURS"; "PERCENT";
   "COMPLETED"; "TIMEOUT"; "FAILED"; "CANCELLED"; "NODE_FAIL"].

(** ** A small production

    One night with an arc task submitted twice and a zpix task, two logs
    of healpix jobs of which one has no job id in its name, and a queue
    that knows five jobs. *)

Definition queue_record (jobid : Z) (constraints : string) (nnodes : Z)
  (elapsed state : string) : Queue.record :=
  {| Queue.JOBID := jobid;
     Queue.JOBNAME := "desi";
     Queue.PARTITION := "regular";
     Queue.CONSTRAINTS := constraints;
     Queue.NNODES := nnodes;
     Queue.SUBMIT := "2021-01-02T08:00:00";
     Queue.ELIGIBLE := "2021-01-02T08:00:00";
     Queue.START := "2021-01-02T08:05:00";
     Queue.END_ := "2021-01-02T10:00:00";
     Queue.ELAPSED := elapsed;
     Queue.STATE := state;
     Queue.EXITCODE := "0:0" |}.

Definition sample_job (jobid : Z) : Queue.record :=
  match jobid with
  | 1 => queue_record 1 "cpu" 2 "01:00:00" "COMPLETED"
  | 2 => queue_record 2 "cpu" 2 "00:30:00" "CANCELLED"
  | 3 => queue_record 3 "cpu" 1 "00:20:00" "COMPLETED"
  | 7 => queue_record 7 "gpu&hbm80g" 1 "00:10:00" "CANCELLED by 12345"
  | _ => queue_record jobid "GPU" 1 "1:30" "TIMEOUT"
  end.

Definition sample_proctable : ProcTable.t :=
  [ {| ProcTable.JOBDESC := "arc"; ProcTable.ALL_QIDS := [1; 2];
       ProcTable.BYTES := false |};
    {| ProcTable.JOBDESC := "zpix"; ProcTable.ALL_QIDS := [3];
       ProcTable.BYTES := false |} ].

(** The production whose healpix logs are [zpixlogs]. *)
Definition sample_world (zpixlogs : list string) : Collaborators :=
  {| findfile_proctable := fun _ =>
       "/prod/processing_tables/processing_table_prod-99999999.csv";
     specprod_root := fun _ => "/prod";
     glob := fun pattern =>
       if String.eqb pattern "/prod/processing_tables/processing_table_prod-202?????.csv"
       then ["/prod/processing_tables/processing_table_prod-20210102.csv"]
       else if String.eqb pattern "/prod/run/scripts/healpix/*/*/*/zpix-*.log"
            then zpixlogs
            else [];
     load_table := fun _ => sample_proctable;
     queue_info_from_qids := fun qids => OK (map sample_job qids);
     environ := fun name => if String.eqb name "SPECPROD" then Some "prod" else None |}.

Definition good_logs : list string :=
  ["/prod/run/scripts/healpix/sv1/dark/100/zpix-sv1-dark-7.log";
   "/prod/run/scripts/healpix/sv1/dark/100/zpix-sv1-dark-old.log"].

Definition bad_logs : list string :=
  ["/prod/run/scripts/healpix/sv1/dark/100/zpix-sv1-dark-7.log";
   "/prod/run/scripts/healpix/sv1/dark/100/zpix-sv1-dark-9.log"].

(** The table a call returns, for a call that returns one. *)
Definition returned {A : Type} (default : A) (m : result A) : A :=
  match m with
  | OK a => a
  | Raise _ => default
  end.

Definition empty_qinfo : QInfo.table := {| QInfo.rows := []; QInfo.meta := [] |}.

Definition sample_qinfo : QInfo.table :=
  returned empty_qinfo (@load_qinfo (sample_world good_logs) None).

(** ** Tables of the scenarios *)

(** Two arc jobs on two nodes each: an hour completed, half an hour
    failed. *)
Definition arc_jobs : list Stacked :=
  [ (queue_record 1 "cpu" 2 "01:00:00" "COMPLETED", "arc");
    (queue_record 2 "cpu" 2 "00:30:00" "FAILED", "arc") ].

(** A job that took no time, for each of the other job descriptions. *)
Definition idle_jobs : list Stacked :=
  map (fun jobdesc => (queue_record 0 "cpu" 1 "00:00:00" "COMPLETED", jobdesc))
      ["linkcal"; "nightlybias"; "ccdcalib"; "psfnight"; "flat"; "nightlyflat";
       "tilenight"; "cumulative"; "zpix"].

(** A job of two minutes and 24 seconds, 0.04 hours, on one node for
    each job description. *)
Definition short_jobs : list Stacked :=
  map (fun jobdesc => (queue_record 0 "cpu" 1 "00:02:24" "COMPLETED", jobdesc))
      jobdescs.

(** Three hours of a job description that is not in the list. *)
Definition unlisted_jobs : list Stacked :=
  [ (queue_record 5 "cpu" 1 "03:00:00" "COMPLETED", "stdstarfit") ].

Definition table_of (jobs : list Stacked) : QInfo.table :=
  returned empty_qinfo (@derive (sample_world []) (Some "prod") jobs).

Definition summary_of (qinfo : QInfo.table) : Summary.table :=
  returned {| Summary.names := []; Summary.rows := [] |} (summarize_qinfo qinfo).

(** Is the job description of the row in the fixed list? *)
Definition listed (r : QInfo.row) : bool :=
  existsb (String.eqb (QInfo.JOBDESC r)) jobdescs.

(** The node hours of a job description, before rounding. *)
Definition jobdesc_hours (qinfo : QInfo.table) (jobdesc : string) : Q :=
  Np.sum (map QInfo.NODE_HOURS
              (filter (fun r => String.eqb (QInfo.JOBDESC r) jobdesc)
                      (QInfo.rows qinfo))).

(** ** The command line

    [main] reads or loads the table, writes it, summarizes it, writes the
    summary and prints it.  What it does to the outside is kept as the
    list of the events so far, beside the outcome: a call that fails has
    still done what came before. *)

(** What ends [main] early: an exception of the functions above, or the
    [OSError] of a file that cannot be read or written. *)
Inductive failure : Type :=
| Python (e : exn)
| OSError.

Inductive outcome (A : Type) : Type :=
| Returned (a : A)
| Failed (f : failure).

Arguments Returned {A} a.
Arguments Failed {A} f.

Definition lift {A : Type} (r : result A) : outcome A :=
  match r with
  | OK a => Returned a
  | Raise e => Failed (Python e)
  end.

(** [astropy.table.Table.read] and [Table.write], the latter for the two
    kinds of table [main] writes; a write may fail, as it does for a file
    that exists when [overwrite] is false. *)
Class TableFiles : Type := {
  Table_read : string -> outcome QInfo.table;
  qinfo_write : QInfo.table -> string -> bool -> outcome unit;
  summary_write : Summary.table -> string -> bool -> outcome unit
}.

(** The [argparse.Namespace] that [parse] returns. *)
Record Namespace : Type := {
  input : option string;
  output : option string;
  summary : option string;
  specprod : option string;
  overwrite : bool;
  debug : bool
}.

Inductive event : Type :=
| WroteQinfo (filename : string) (overwrite : bool) (t : QInfo.table)
| WroteSummary (filename : string) (overwrite : bool) (t : Summary.table)
| Printed (t : Summary.table)
| Embedded.

(** A computation with events: the events it made and its outcome. *)
Definition io (A : Type) : Type := (list event * outcome A)%type.

Definition io_bind {A B : Type} (m : io A) (k : A -> io B) : io B :=
  match m with
  | (events, Returned a) => let (events', r) := k a in ((events ++ events')%list, r)
  | (events, Failed f) => (events, Failed f)
  end.

(** A call that makes no event. *)
Definition quiet {A : Type} (r : outcome A) : io A := ([], r).

(** A call that makes the event when it returns. *)
Definition doing (ev : event) (r : outcome unit) : io unit :=
  match r with
  | Returned u => ([ev], Returned u)
  | Failed f => ([], Failed f)
  end.

Section Main.

Context {world : Collaborators} {files : TableFiles}.

Definition main (args : Namespace) : io unit :=
  io_bind
    (quiet (match input args with
            | Some filename => Table_read filename
            | None => lift (load_qinfo (specprod args))
            end))
    (fun qinfo =>
  io_bind
    (match output args with
     | Some filename =>
         doing (WroteQinfo filename (overwrite args) qinfo)
               (qinfo_write qinfo filename (overwrite args))
     | None => quiet (Returned tt)
     end)
    (fun _ =>
  io_bind (quiet (lift (summarize_qinfo qinfo)))
    (fun t =>
  io_bind
    (match summary args with
     | Some filename =>
         doing (WroteSummary filename (overwrite args) t)
               (summary_write t filename (overwrite args))
     | None => quiet (Returned tt)
     end)
    (fun _ =>
  io_bind (doing (Printed t) (Returned tt))
    (fun _ =>
  if debug args then doing Embedded (Returned tt) else quiet (Returned tt)))))).

End Main.

(** ** More of the small production *)

(** Files that are read as the table [t]; the files named in [present]
    exist, and are not written over unless asked. *)
Definition sample_files (t : QInfo.table) (present : list string) : TableFiles :=
  {| Table_read := fun _ => Returned t;
     qinfo_write := fun _ filename overwrite =>
       if (existsb (String.eqb filename) present && negb overwrite)%bool
       then Failed OSError else Returned tt;
     summary_write := fun _ filename overwrite =>
       if (existsb (String.eqb filename) present && negb overwrite)%bool
       then Failed OSError else Returned tt |}.




(** The small production with a queue that knows no job beyond 6. *)
Definition forgetful_world : Collaborators :=
  {| findfile_proctable := @findfile_proctable (sample_world good_logs);
     specprod_root := @specprod_root (sample_world good_logs);
     glob := @glob (sample_world good_logs);
     load_table := @load_table (sample_world good_logs);
     queue_info_from_qids := fun qids =>
       if forallb (fun qid => qid <=? 6) qids
       then OK (map sample_job qids) else Raise KeyError;
     environ := @environ (sample_world good_logs) |}.

(** A zpix job on a GPU before the jobs of the scenario, whose zpix job
    is on a CPU. *)
Definition mixed_jobs : list Stacked :=
  (queue_record 3 "gpu" 1 "00:10:00" "COMPLETED", "zpix") :: (arc_jobs ++ idle_jobs)%list.

(** The command line of a run on the small production. *)
Definition sample_args (from to summary_to : option string) (over : bool) : Namespace :=
  {| input := from; output := to; summary := summary_to; specprod := None;
     overwrite := over; debug := false |}.

(** A row that stands for none. *)
Definition no_row : QInfo.row :=
  derive_row false (queue_record 0 "" 0 "00:00:00" "", "") 0.

(** The table with its rows in the opposite order. *)
Definition reversed (qinfo : QInfo.table) : QInfo.table :=
  {| QInfo.rows := rev (QInfo.rows qinfo); QInfo.meta := QInfo.meta qinfo |}.

(** The job ids of the rows of a table with a job description. *)
Definition table_qids (ptab : ProcTable.t) (jobdesc : text) : list Z :=
  List.concat (map ProcTable.ALL_QIDS
                   (filter (fun r => text_eqb (ProcTable.jobdesc r) jobdesc) ptab)).

(** * Properties *)

(** ** Exceptions *)

Lemma bind_OK {A B : Type} (m : result A) (k : A -> result B) (b : B) :
  bind m k = OK b <-> exists a, m = OK a /\ k a = OK b.
Proof.
  destruct m as [a | e]; simpl; split.
  - intros H. exists a. split; [reflexivity | exact H].
  - intros [a' [Ha Hk]]. inversion Ha. subst. exact Hk.
  - discriminate.
  - intros [a' [Ha _]]. discriminate.
Qed.

Lemma bind_Raise {A B : Type} (m : result A) (k : A -> result B) (e : exn) :
  bind m k = Raise e <-> m = Raise e \/ exists a, m = OK a /\ k a = Raise e.
Proof.
  destruct m as [a | e']; simpl; split.
  - intros H. right. exists a. split; [reflexivity | exact H].
  - intros [H | [a' [Ha Hk]]]; [discriminate | inversion Ha; subst; exact Hk].
  - intros H. left. inversion H. reflexivity.
  - intros [H | [a' [Ha _]]]; [inversion H; reflexivity | discriminate].
Qed.

Lemma mapM_OK {A B : Type} (f : A -> result B) (xs : list A) (ys : list B) :
  mapM f xs = OK ys <-> Forall2 (fun x y => f x = OK y) xs ys.
Proof.
  revert ys. induction xs as [| x xs IH]; intros ys; simpl.
  - split.
    + intros H. inversion H. constructor.
    + intros H. inversion H. reflexivity.
  - rewrite bind_OK. split.
    + intros [y [Hy H]]. apply bind_OK in H. destruct H as [ys' [Hys H]].
      inversion H. subst. constructor; [exact Hy | apply IH; exact Hys].
    + intros H. inversion H as [| x' y xs' ys' Hy Hys]. subst.
      exists y. split; [exact Hy |].
      apply bind_OK. exists ys'. split; [apply IH; exact Hys | reflexivity].
Qed.

Lemma mapM_Raise {A B : Type} (f : A -> result B) (xs : list A) (e : exn) :
  mapM f xs = Raise e -> exists x, In x xs /\ f x = Raise e.
Proof.
  induction xs as [| x xs IH]; simpl; [discriminate |].
  intros H. apply bind_Raise in H. destruct H as [H | [y [Hy H]]].
  - exists x. split; [left; reflexivity | exact H].
  - apply bind_Raise in H. destruct H as [H | [ys [_ H]]]; [| discriminate].
    destruct (IH H) as [x' [Hin Hx]]. exists x'. split; [right; exact Hin | exact Hx].
Qed.

Lemma mapM_total {A B : Type} (f : A -> result B) (xs : list A) :
  (forall x, In x xs -> exists y, f x = OK y) -> exists ys, mapM f xs = OK ys.
Proof.
  intros H. destruct (mapM f xs) as [ys | e] eqn:E; [exists ys; reflexivity |].
  apply mapM_Raise in E. destruct E as [x [Hin Hx]].
  destruct (H x Hin) as [y Hy]. congruence.
Qed.

Lemma mapM_fails {A B : Type} (f : A -> result B) (xs : list A) (x : A) (e : exn) :
  In x xs -> f x = Raise e -> exists e', mapM f xs = Raise e'.
Proof.
  intros Hin Hx. destruct (mapM f xs) as [ys | e'] eqn:E; [| exists e'; reflexivity].
  apply mapM_OK in E. exfalso. revert Hin. induction E as [| x' y xs' ys' Hy _ IH].
  - intros [].
  - intros [-> | Hin]; [congruence | exact (IH Hin)].
Qed.

Lemma Forall2_In_l {A B : Type} (R : A -> B -> Prop) (xs : list A) (ys : list B)
  (x : A) :
  Forall2 R xs ys -> In x xs -> exists y, In y ys /\ R x y.
Proof.
  intros H. induction H as [| x' y xs' ys' Hxy _ IH]; [intros [] |].
  intros [<- | Hin].
  - exists y. split; [left; reflexivity | exact Hxy].
  - destruct (IH Hin) as [y' [Hy' HR]]. exists y'. split; [right; exact Hy' | exact HR].
Qed.

Lemma Forall2_In_r {A B : Type} (R : A -> B -> Prop) (xs : list A) (ys : list B)
  (y : B) :
  Forall2 R xs ys -> In y ys -> exists x, In x xs /\ R x y.
Proof.
  intros H. induction H as [| x y' xs' ys' Hxy _ IH]; [intros [] |].
  intros [<- | Hin].
  - exists x. split; [left; reflexivity | exact Hxy].
  - destruct (IH Hin) as [x' [Hx' HR]]. exists x'. split; [right; exact Hx' | exact HR].
Qed.

(** ** The summary *)

Lemma filter_nil_iff {A : Type} (p : A -> bool) (xs : list A) :
  filter p xs = [] <-> forall x, In x xs -> p x = false.
Proof.
  induction xs as [| x xs IH]; simpl.
  - split; [intros _ y [] | reflexivity].
  - destruct (p x) eqn:E; split.
    + discriminate.
    + intros H. specialize (H x (or_introl eq_refl)). congruence.
    + intros H y [<- | Hy]; [exact E | apply IH; assumption].
    + intros H. apply IH. intros y Hy. apply H. right. exact Hy.
Qed.

(** The row of a job description is computed when the table has a row
    with it, and [IndexError] is raised when it has none. *)
Lemma summary_row_cases (qinfo : QInfo.table) (tot : Q) (jobdesc : string) :
  (has_jobdesc qinfo jobdesc /\ exists row, summary_row qinfo tot jobdesc = OK row)
  \/ (~ has_jobdesc qinfo jobdesc /\ summary_row qinfo tot jobdesc = Raise IndexError).
Proof.
  unfold summary_row.
  destruct (filter (fun r => String.eqb (QInfo.JOBDESC r) jobdesc) (QInfo.rows qinfo))
    as [| r rs] eqn:E.
  - right. split; [| reflexivity].
    intros [r [Hin Hr]]. rewrite filter_nil_iff in E.
    specialize (E r Hin). simpl in E. rewrite Hr, String.eqb_refl in E. discriminate.
  - left. split.
    + assert (Hin : In r (r :: rs)) by (left; reflexivity).
      rewrite <- E in Hin. apply filter_In in Hin. destruct Hin as [Hin Hr].
      exists r. split; [exact Hin | apply String.eqb_eq; exact Hr].
    + simpl. eexists. reflexivity.
Qed.

Lemma summary_row_shape (qinfo : QInfo.table) (tot : Q) (jobdesc : string)
  (row : list Summary.cell) :
  summary_row qinfo tot jobdesc = OK row ->
  exists cpugpu node_hours c1 c2 c3 c4 c5,
    row = [Summary.Str jobdesc; Summary.Str cpugpu; Summary.Float node_hours;
           Summary.Float (Np.round (100 * node_hours / tot) 1);
           Summary.Int c1; Summary.Int c2; Summary.Int c3; Summary.Int c4;
           Summary.Int c5].
Proof.
  unfold summary_row. intros H. apply bind_OK in H. destruct H as [gpu [_ H]].
  inversion H. simpl. do 7 eexists. reflexivity.
Qed.

Lemma summarize_OK (qinfo : QInfo.table) (t : Summary.table) :
  summarize_qinfo qinfo = OK t <->
  Summary.names t = summary_names /\
  Forall2 (fun jobdesc row =>
             summary_row qinfo (Np.sum (map QInfo.NODE_HOURS (QInfo.rows qinfo)))
                         jobdesc = OK row)
          jobdescs (Summary.rows t).
Proof.
  unfold summarize_qinfo. rewrite bind_OK. split.
  - intros [rows [Hrows H]]. inversion H. subst. simpl.
    split; [reflexivity | apply mapM_OK; exact Hrows].
  - intros [Hn Hrows]. exists (Summary.rows t). split; [apply mapM_OK; exact Hrows |].
    destruct t as [names rows]. simpl in *. subst. reflexivity.
Qed.

(** [summarize_qinfo] returns a table exactly when every job description
    of its list has a row in [qinfo]. *)
Lemma summarize_succeeds_iff (qinfo : QInfo.table) :
  (exists t, summarize_qinfo qinfo = OK t) <->
  (forall jobdesc, In jobdesc jobdescs -> has_jobdesc qinfo jobdesc).
Proof.
  split.
  - intros [t Ht] jobdesc Hin. apply summarize_OK in Ht. destruct Ht as [_ Hrows].
    destruct (Forall2_In_l _ _ _ _ Hrows Hin) as [row [_ Hrow]].
    destruct (summary_row_cases qinfo
                (Np.sum (map QInfo.NODE_HOURS (QInfo.rows qinfo))) jobdesc)
      as [[Hh _] | [_ Hr]]; [exact Hh | congruence].
  - intros H. unfold summarize_qinfo.
    destruct (mapM_total (summary_row qinfo
                (Np.sum (map QInfo.NODE_HOURS (QInfo.rows qinfo)))) jobdescs) as [rows Hrows].
    + intros c Hc.
      destruct (summary_row_cases qinfo
                  (Np.sum (map QInfo.NODE_HOURS (QInfo.rows qinfo))) c)
        as [[_ Hr] | [Hn _]]; [exact Hr | exfalso; exact (Hn (H c Hc))].
    + rewrite Hrows. simpl. eexists. reflexivity.
Qed.

Lemma summary_rows_jobdesc (qinfo : QInfo.table) (tot : Q) (cs : list string)
  (rows : list (list Summary.cell)) :
  Forall2 (fun jobdesc row => summary_row qinfo tot jobdesc = OK row) cs rows ->
  Summary.column summary_names rows "JOBDESC" = Some (map Summary.Str cs).
Proof.
  intros H. induction H as [| c row cs' rows' Hrow _ IH]; [reflexivity |].
  apply summary_row_shape in Hrow.
  destruct Hrow as (cpugpu & nh & c1 & c2 & c3 & c4 & c5 & ->).
  simpl. simpl in IH. rewrite IH. reflexivity.
Qed.

Lemma summary_rows_percent (qinfo : QInfo.table) (tot : Q) (cs : list string)
  (rows : list (list Summary.cell)) :
  Forall2 (fun jobdesc row => summary_row qinfo tot jobdesc = OK row) cs rows ->
  Forall (fun row =>
            exists node_hours,
              Summary.lookup summary_names row "NODE_HOURS"
              = Some (Summary.Float node_hours) /\
              Summary.lookup summary_names row "PERCENT"
              = Some (Summary.Float (Np.round (100 * node_hours / tot) 1)))
         rows.
Proof.
  intros H. induction H as [| c row cs' rows' Hrow _ IH]; constructor; [| exact IH].
  apply summary_row_shape in Hrow.
  destruct Hrow as (cpugpu & nh & c1 & c2 & c3 & c4 & c5 & ->).
  exists nh. split; reflexivity.
Qed.

(** ** Sums *)

Local Open Scope Q_scope.

Lemma fold_left_Qplus (xs : list Q) (a : Q) :
  fold_left Qplus xs a == a + fold_left Qplus xs 0.
Proof.
  revert a. induction xs as [| x xs IH]; intros a; simpl; [lra |].
  rewrite (IH (a + x)), (IH (0 + x)). lra.
Qed.

Lemma sum_nil : Np.sum [] == 0.
Proof. reflexivity. Qed.

Lemma sum_cons (x : Q) (xs : list Q) : Np.sum (x :: xs) == x + Np.sum xs.
Proof.
  unfold Np.sum. simpl. rewrite fold_left_Qplus. lra.
Qed.

(** The sum over a table is the sum over the rows a test selects plus the
    sum over the rows it does not. *)
Lemma sum_filter_split {A : Type} (f : A -> Q) (p : A -> bool) (xs : list A) :
  Np.sum (map f xs)
  == Np.sum (map f (filter p xs)) + Np.sum (map f (filter (fun x => negb (p x)) xs)).
Proof.
  induction xs as [| x xs IH]; [reflexivity |].
  simpl. destruct (p x); simpl; rewrite !sum_cons, IH; lra.
Qed.

(** ** Strings *)

Lemma startswith_iff (s prefix : string) :
  startswith s prefix = true <-> exists rest, s = (prefix ++ rest)%string.
Proof.
  revert s. induction prefix as [| p prefix IH]; intros s; simpl.
  - split; [intros _; exists s; reflexivity | reflexivity].
  - destruct s as [| c s]; split.
    + discriminate.
    + intros [rest H]. discriminate.
    + intros H. apply andb_true_iff in H. destruct H as [Hc Hs].
      apply Ascii.eqb_eq in Hc. apply IH in Hs. destruct Hs as [rest ->].
      exists rest. subst. reflexivity.
    + intros [rest H]. inversion H. subst. apply andb_true_iff. split.
      * apply Ascii.eqb_refl.
      * apply IH. exists rest. reflexivity.
Qed.

Lemma count_from_nonneg (sub : string) (skip : nat) (s : string) :
  (0 <= count_from sub skip s)%Z.
Proof.
  revert skip. induction s as [| c s IH]; intros skip; cbn [count_from].
  - destruct sub, skip; lia.
  - destruct skip as [| k]; [| apply IH].
    destruct (startswith (String c s) sub).
    + specialize (IH (Nat.pred (String.length sub))). lia.
    + apply IH.
Qed.

(** [s.count(sub) > 0] says that [sub] occurs in [s]. *)
Lemma count_positive_iff (s sub : string) :
  (count s sub >? 0)%Z = true <-> substring_of sub s.
Proof.
  unfold count, substring_of. rewrite Z.gtb_lt.
  induction s as [| c s IH]; cbn [count_from].
  - destruct sub as [| a sub]; split.
    + intros _. exists EmptyString, EmptyString. reflexivity.
    + lia.
    + lia.
    + intros [before [after H]]. destruct before; discriminate.
  - destruct (startswith (String c s) sub) eqn:E.
    + split.
      * intros _. apply startswith_iff in E. destruct E as [rest E].
        exists EmptyString, rest. exact E.
      * intros _. pose proof (count_from_nonneg sub (Nat.pred (String.length sub)) s).
        lia.
    + rewrite IH. split.
      * intros [before [after ->]]. exists (String c before), after. reflexivity.
      * intros [before [after H]]. destruct before as [| b before].
        -- simpl in H. assert (startswith (String c s) sub = true); [| congruence].
           apply startswith_iff. exists after. exact H.
        -- inversion H. exists before, after. reflexivity.
Qed.

Lemma split_not_nil (sep : ascii) (s : string) : split sep s <> [].
Proof.
  destruct s as [| c s]; simpl; [discriminate |].
  destruct (Ascii.eqb c sep); [discriminate |].
  destruct (split sep s); discriminate.
Qed.

Lemma join_split (sep : ascii) (s : string) : join sep (split sep s) = s.
Proof.
  induction s as [| c s IH]; [reflexivity |].
  simpl. destruct (Ascii.eqb c sep) eqn:E.
  - apply Ascii.eqb_eq in E. subst c.
    destruct (split sep s) as [| f fs] eqn:Es; [exfalso; exact (split_not_nil _ _ Es) |].
    change (join sep (EmptyString :: f :: fs)) with (String sep (join sep (f :: fs))).
    rewrite IH. reflexivity.
  - destruct (split sep s) as [| f fs] eqn:Es; [exfalso; exact (split_not_nil _ _ Es) |].
    destruct fs as [| g gs]; simpl in *; rewrite <- IH; reflexivity.
Qed.

Lemma split_fields_free (sep : ascii) (s : string) :
  Forall (fun f => has_char sep f = false) (split sep s).
Proof.
  induction s as [| c s IH]; simpl.
  - constructor; [reflexivity | constructor].
  - destruct (Ascii.eqb c sep) eqn:E.
    + constructor; [reflexivity | exact IH].
    + destruct (split sep s) as [| f fs]; simpl.
      * constructor; [simpl; rewrite E; reflexivity | constructor].
      * inversion IH; subst. constructor; [simpl; rewrite E | ]; assumption.
Qed.

Lemma split_free (sep : ascii) (f : string) :
  has_char sep f = false -> split sep f = [f].
Proof.
  induction f as [| c f IH]; simpl; [reflexivity |].
  intros H. apply orb_false_iff in H. destruct H as [Hc Hf].
  rewrite Hc, (IH Hf). reflexivity.
Qed.

Lemma split_app_sep (sep : ascii) (f rest : string) :
  has_char sep f = false ->
  split sep (f ++ String sep rest) = f :: split sep rest.
Proof.
  induction f as [| c f IH]; simpl.
  - intros _. rewrite Ascii.eqb_refl. reflexivity.
  - intros H. apply orb_false_iff in H. destruct H as [Hc Hf].
    rewrite Hc, (IH Hf). reflexivity.
Qed.

(** Splitting at the colons gives three fields exactly for the strings
    made of three fields. *)
Lemma split_three_iff (s hh mm ss : string) :
  split ":" s = [hh; mm; ss] <-> elapsed_fields s hh mm ss.
Proof.
  unfold elapsed_fields. split.
  - intros H. pose proof (join_split ":" s) as Hj.
    pose proof (split_fields_free ":" s) as Hf. rewrite H in Hj, Hf.
    inversion Hf as [| ? ? Fhh Hf1]. inversion Hf1 as [| ? ? Fmm Hf2].
    inversion Hf2 as [| ? ? Fss _]. simpl in Hj.
    repeat split; try assumption. symmetry. exact Hj.
  - intros (-> & H1 & H2 & H3).
    change (hh ++ ":" ++ mm ++ ":" ++ ss)%string
      with (hh ++ String ":" (mm ++ String ":" ss))%string.
    rewrite (split_app_sep _ _ _ H1), (split_app_sep _ _ _ H2), (split_free _ _ H3).
    reflexivity.
Qed.

(** ** Elapsed times *)

Section Elapsed.



Lemma float_of_int_cases (n : Z) :
  float_of_int n = OK (inject_Z n) \/ float_of_int n = Raise OverflowError.
Proof.
  unfold float_of_int. destruct (Z.abs n <? float_overflow)%Z; auto.
Qed.




Lemma int_raises (s : string) (e : exn) : int s = Raise e -> e = ValueError.
Proof.
  unfold int. intros H.
  destruct (match rstrip (lstrip s) with
            | String "+" r => digits 0 false r
            | String "-" r => option_map Z.opp (digits 0 false r)
            | _ => digits 0 false (rstrip (lstrip s))
            end); [discriminate | inversion H; reflexivity].
Qed.

(** What [hhmmss2hours] does with a string: hours or [OverflowError] when
    it is well formed, [ValueError] when it is not, or [OverflowError]
    when the hours or the minutes are too large before the field that
    [int] does not read. *)
Lemma hhmmss2hours_cases (s : string) :
  (well_formed_elapsed s
   /\ ((exists hours, hhmmss2hours s = OK hours)
       \/ hhmmss2hours s = Raise OverflowError))
  \/ (~ well_formed_elapsed s
      /\ (hhmmss2hours s = Raise ValueError
          \/ hhmmss2hours s = Raise OverflowError)).
Proof.
  unfold hhmmss2hours.
  destruct (split ":" s) as [| hh [| mm [| ss [| x fs]]]] eqn:E;
    try (right; split; [| left; reflexivity];
         intros (hh' & mm' & ss' & h & m & sec & Hf & _);
         apply split_three_iff in Hf; congruence).
  assert (Hwf : forall sec, int ss = OK sec ->
                forall h m, int hh = OK h -> int mm = OK m -> well_formed_elapsed s).
  { intros sec Hsec h m Hh Hm. exists hh, mm, ss, h, m, sec.
    apply split_three_iff in E. tauto. }
  assert (Hss : forall e, int ss = Raise e -> ~ well_formed_elapsed s).
  { intros e He (hh' & mm' & ss' & h' & m' & sec' & Hf & _ & _ & Hs).
    apply split_three_iff in Hf. congruence. }
  destruct (int hh) as [h | e1] eqn:Eh; cbn [bind].
  - destruct (int mm) as [m | e2] eqn:Em; cbn [bind].
    + destruct (float_of_int_cases m) as [Fm | Fm]; rewrite Fm; cbn [bind].
      * destruct (float_of_int_cases h) as [Fh | Fh]; rewrite Fh; cbn [bind].
        -- destruct (int ss) as [sec | e3] eqn:Es; cbn [bind].
           ++ left. split; [exact (Hwf sec eq_refl h m eq_refl eq_refl) |].
              destruct (float_of_int_cases sec) as [Fs | Fs]; rewrite Fs; cbn [bind].
              ** left. eexists. reflexivity.
              ** right. reflexivity.
           ++ right. pose proof (int_raises _ _ Es); subst.
              split; [exact (Hss _ eq_refl) | left; reflexivity].
        -- destruct (int ss) as [sec | e3] eqn:Es.
           ++ left. split; [exact (Hwf sec eq_refl h m eq_refl eq_refl) |].
              right. reflexivity.
           ++ right. split; [exact (Hss _ eq_refl) | right; reflexivity].
      * destruct (int ss) as [sec | e3] eqn:Es.
        -- left. split; [exact (Hwf sec eq_refl h m eq_refl eq_refl) |].
           right. reflexivity.
        -- right. split; [exact (Hss _ eq_refl) | right; reflexivity].
    + right. pose proof (int_raises _ _ Em); subst. split; [| left; reflexivity].
      intros (hh' & mm' & ss' & h' & m' & sec' & Hf & _ & Hm & _).
      apply split_three_iff in Hf. congruence.
  - right. pose proof (int_raises _ _ Eh); subst. split; [| left; reflexivity].
    intros (hh' & mm' & ss' & h' & m' & sec' & Hf & Hh & _ & _).
    apply split_three_iff in Hf. congruence.
Qed.

(** The hours [hhmmss2hours] returns are those of three fields that
    [int] reads. *)
Lemma hhmmss2hours_returns (s : string) (hours : Q) :
  hhmmss2hours s = OK hours ->
  exists hh mm ss h m sec,
    elapsed_fields s hh mm ss
    /\ int hh = OK h /\ int mm = OK m /\ int ss = OK sec
    /\ hours = inject_Z h + inject_Z m / 60 + inject_Z sec / 3600.
Proof.
  unfold hhmmss2hours.
  destruct (split ":" s) as [| hh [| mm [| ss [| x fs]]]] eqn:E; try discriminate.
  destruct (int hh) as [h | e1] eqn:Eh; cbn [bind]; [| discriminate].
  destruct (int mm) as [m | e2] eqn:Em; cbn [bind]; [| discriminate].
  destruct (float_of_int_cases m) as [Fm | Fm]; rewrite Fm; cbn [bind];
    [| discriminate].
  destruct (float_of_int_cases h) as [Fh | Fh]; rewrite Fh; cbn [bind];
    [| discriminate].
  destruct (int ss) as [sec | e3] eqn:Es; cbn [bind]; [| discriminate].
  destruct (float_of_int_cases sec) as [Fs | Fs]; rewrite Fs; cbn [bind];
    [| discriminate].
  intros H. inversion H. exists hh, mm, ss, h, m, sec.
  apply split_three_iff in E. tauto.
Qed.

End Elapsed.

(** ** Rounding *)

Lemma rint_close (x : Q) : Qabs (inject_Z (Np.rint x) - x) <= 1 # 2.
Proof.
  unfold Np.rint. pose proof (Qfloor_le x) as Hlo. pose proof (Qlt_floor x) as Hhi.
  rewrite inject_Z_plus in Hhi. change (inject_Z 1) with 1 in Hhi.
  apply Qabs_Qle_condition.
  destruct (Qcompare (x - inject_Z (Qfloor x)) (1 # 2)) eqn:E;
    [apply Qeq_alt in E; destruct (Z.even (Qfloor x))
    | apply Qlt_alt in E | apply Qgt_alt in E];
    rewrite ?inject_Z_plus; change (inject_Z 1) with 1;
    generalize dependent (inject_Z (Qfloor x)); intros f Hlo Hhi E; split; lra.
Qed.

(** Rounding to one decimal moves a value by at most 0.05. *)
Lemma round1_close (x : Q) : Qabs (Np.round x 1 - x) <= 1 # 20.
Proof.
  unfold Np.round. change (inject_Z (10 ^ Z.of_nat 1)) with 10.
  pose proof (rint_close (x * 10)) as H.
  apply Qabs_Qle_condition in H. apply Qabs_Qle_condition.
  generalize dependent (inject_Z (Np.rint (x * 10))). intros y H.
  assert (E : y / 10 == y * (1 # 10)) by (unfold Qdiv; reflexivity).
  rewrite E. split; lra.
Qed.

Lemma rint_comp (x y : Q) : x == y -> Np.rint x = Np.rint y.
Proof.
  intros H. unfold Np.rint. rewrite (Qfloor_comp _ _ H).
  assert (E : Qcompare (x - inject_Z (Qfloor y)) (1 # 2)
              = Qcompare (y - inject_Z (Qfloor y)) (1 # 2)).
  { apply Qcompare_comp; [rewrite H |]; reflexivity. }
  rewrite E. reflexivity.
Qed.

Lemma round_comp (x y : Q) (decimals : nat) :
  x == y -> Np.round x decimals = Np.round y decimals.
Proof.
  intros H. unfold Np.round.
  rewrite (rint_comp (x * inject_Z (10 ^ Z.of_nat decimals))
                     (y * inject_Z (10 ^ Z.of_nat decimals))); [reflexivity |].
  rewrite H. reflexivity.
Qed.

(** ** The aggregated table *)

Lemma Forall2_impl_In {A B : Type} (R S : A -> B -> Prop) (xs : list A) (ys : list B) :
  Forall2 R xs ys ->
  (forall x y, In x xs -> R x y -> S x y) ->
  Forall2 S xs ys.
Proof.
  intros H. induction H as [| x y xs' ys' Hxy _ IH]; intros HS; constructor.
  - apply HS; [left; reflexivity | exact Hxy].
  - apply IH. intros x' y' Hin. apply HS. right. exact Hin.
Qed.

Lemma Forall2_map_combine {A B C : Type} (P : A -> B -> Prop) (f : A * B -> C)
  (xs : list A) (ys : list B) :
  Forall2 P xs ys ->
  Forall2 (fun x z => exists y, P x y /\ z = f (x, y)) xs (map f (combine xs ys)).
Proof.
  intros H. induction H as [| x y xs' ys' Hxy _ IH]; simpl; constructor.
  - exists y. split; [exact Hxy | reflexivity].
  - exact IH.
Qed.

Lemma any_true_intro {A : Type} (p : A -> bool) (xs : list A) (x : A) :
  In x xs -> p x = true -> Np.any (map p xs) = true.
Proof.
  intros Hin Hp. unfold Np.any. apply existsb_exists.
  exists true. split; [| reflexivity].
  rewrite <- Hp. apply in_map. exact Hin.
Qed.

Section Aggregated.

Context {world : Collaborators}.

(** Every row of the table [derive] returns is [derive_row] of the
    stacked record at its place, with the hours of its elapsed time. *)
Lemma derive_rows (specprod : option string) (qinfo : list Stacked)
  (t : QInfo.table) :
  derive specprod qinfo = OK t ->
  Forall2 (fun r row =>
             exists hours,
               hhmmss2hours (Queue.ELAPSED (fst r)) = OK hours /\
               row = derive_row
                       (Np.any (map (fun r' => startswith (Queue.STATE (fst r'))
                                                          "CANCELLED by") qinfo))
                       r hours)
          qinfo (QInfo.rows t).
Proof.
  unfold derive. intros H. apply bind_OK in H. destruct H as [hours [Hh H]].
  apply bind_OK in H. destruct H as [name [_ H]]. inversion H. subst. simpl.
  apply mapM_OK in Hh.
  exact (Forall2_map_combine
           (fun r h => hhmmss2hours (Queue.ELAPSED (fst r)) = OK h)
           (fun rh => derive_row _ (fst rh) (snd rh)) _ _ Hh).
Qed.

Lemma load_qinfo_stages (specprod : option string) (t : QInfo.table) :
  load_qinfo specprod = OK t <->
  exists jobdesc_qids qinfo,
    jobdesc_qids_of specprod = OK jobdesc_qids /\
    stack_qinfo jobdesc_qids = OK qinfo /\
    derive specprod qinfo = OK t.
Proof.
  unfold load_qinfo. rewrite bind_OK. split.
  - intros [d [Hd H]]. apply bind_OK in H. destruct H as [qinfo [Hq H]].
    exists d, qinfo. auto.
  - intros (d & qinfo & Hd & Hq & H). exists d. split; [exact Hd |].
    apply bind_OK. exists qinfo. auto.
Qed.

(** An elapsed time that is not well formed anywhere in the stacked
    records makes [derive] raise: [ValueError], or the [OverflowError] of
    an integer too large for a float that is met first. *)
Lemma derive_malformed (specprod : option string) (qinfo : list Stacked) (r : Stacked) :
  In r qinfo -> ~ well_formed_elapsed (Queue.ELAPSED (fst r)) ->
  derive specprod qinfo = Raise ValueError
  \/ derive specprod qinfo = Raise OverflowError.
Proof.
  intros Hin Hbad. unfold derive.
  destruct (hhmmss2hours_cases (Queue.ELAPSED (fst r))) as [[Hwf _] | [_ Hr]];
    [contradiction |].
  assert (He : exists e, mapM (fun r => hhmmss2hours (Queue.ELAPSED (fst r))) qinfo
                         = Raise e).
  { destruct Hr as [Hr | Hr]; exact (mapM_fails _ qinfo r _ Hin Hr). }
  destruct He as [e He]. rewrite He. simpl.
  apply mapM_Raise in He. destruct He as [r' [_ Hr']].
  destruct (hhmmss2hours_cases (Queue.ELAPSED (fst r')))
    as [[_ [[h Hh] | Hv]] | [_ [Hv | Hv]]];
    rewrite Hr' in *; try discriminate; inversion Hv; auto.
Qed.

(** It is [ValueError] when no record has an integer too large. *)
Lemma derive_malformed_ValueError (specprod : option string) (qinfo : list Stacked)
  (r : Stacked) :
  In r qinfo -> ~ well_formed_elapsed (Queue.ELAPSED (fst r)) ->
  (forall r', In r' qinfo ->
              hhmmss2hours (Queue.ELAPSED (fst r')) <> Raise OverflowError) ->
  derive specprod qinfo = Raise ValueError.
Proof.
  intros Hin Hbad Hno.
  destruct (derive_malformed specprod qinfo r Hin Hbad) as [H | H]; [exact H |].
  exfalso. unfold derive in H.
  destruct (mapM (fun r => hhmmss2hours (Queue.ELAPSED (fst r))) qinfo)
    as [hours | e] eqn:He.
  - simpl in H. destruct specprod; [discriminate |].
    destruct (environ "SPECPROD"); discriminate.
  - simpl in H. inversion H. subst e.
    apply mapM_Raise in He. destruct He as [r' [Hin' Hr']].
    exact (Hno r' Hin' Hr').
Qed.

End Aggregated.

(** ** The job ids *)

Lemma insert_sorted_In (x y : string) (xs : list string) :
  In y (insert_sorted x xs) -> y = x \/ In y xs.
Proof.
  induction xs as [| z xs IH]; simpl.
  - intros [<- | []]. left. reflexivity.
  - destruct (String.ltb x z); simpl.
    + intros [<- | H]; [left; reflexivity | right; exact H].
    + intros [<- | H]; [right; left; reflexivity |].
      destruct (IH H) as [-> | Hin]; [left; reflexivity | right; right; exact Hin].
Qed.

Lemma sorted_In (y : string) (xs : list string) : In y (sorted xs) -> In y xs.
Proof.
  induction xs as [| x xs IH]; simpl; [intros [] |].
  intros H. apply insert_sorted_In in H. destruct H as [-> | H];
    [left; reflexivity | right; exact (IH H)].
Qed.

Lemma text_eqb_eq (x y : text) : text_eqb x y = true <-> x = y.
Proof.
  destruct x as [a | a], y as [b | b]; simpl;
    try (split; [discriminate | intros H; discriminate H]);
    rewrite String.eqb_eq; split; intros H; [subst | inversion H | subst | inversion H];
    reflexivity.
Qed.

Lemma text_eqb_refl (x : text) : text_eqb x x = true.
Proof. apply text_eqb_eq. reflexivity. Qed.

Lemma text_eqb_neq (x y : text) : text_eqb x y = false <-> x <> y.
Proof.
  split.
  - intros H E. apply text_eqb_eq in E. congruence.
  - intros H. destruct (text_eqb x y) eqn:E; [| reflexivity].
    apply text_eqb_eq in E. contradiction.
Qed.

Lemma text_insert_sorted_In (x y : text) (xs : list text) :
  In y (Np.insert_sorted x xs) <-> y = x \/ In y xs.
Proof.
  induction xs as [| z xs IH]; simpl.
  - split; [intros [<- | []]; left; reflexivity | intros [-> | []]; left; reflexivity].
  - destruct (text_ltb x z); simpl; [intuition congruence |].
    rewrite IH. intuition congruence.
Qed.

Lemma sort_In (y : text) (xs : list text) : In y (Np.sort xs) <-> In y xs.
Proof.
  induction xs as [| x xs IH]; simpl; [reflexivity |].
  rewrite text_insert_sorted_In, IH. intuition congruence.
Qed.

Lemma drop_repeats_In (y : text) (xs : list text) :
  In y (Np.drop_repeats xs) <-> In y xs.
Proof.
  induction xs as [| x xs IH]; [reflexivity |].
  cbn [Np.drop_repeats]. destruct xs as [| x' xs'].
  - reflexivity.
  - destruct (text_eqb x x') eqn:E.
    + apply text_eqb_eq in E. subst x'. rewrite IH. simpl. intuition.
    + change (In y (x :: Np.drop_repeats (x' :: xs'))) with
        (x = y \/ In y (Np.drop_repeats (x' :: xs'))).
      rewrite IH. reflexivity.
Qed.

(** The values of [np.unique] are those of the column. *)
Lemma unique_In (y : text) (xs : list text) : In y (Np.unique xs) <-> In y xs.
Proof.
  unfold Np.unique. rewrite drop_repeats_In. apply sort_In.
Qed.

Lemma dict_get_set (d : dict) (key : text) (value : list Z) :
  dict_get (dict_set d key value) key = Some value.
Proof.
  induction d as [| [k v] d IH]; simpl.
  - rewrite text_eqb_refl. reflexivity.
  - destruct (text_eqb k key) eqn:E; simpl; rewrite E; [reflexivity | exact IH].
Qed.

Lemma dict_get_set_other (d : dict) (key other : text) (value : list Z) :
  other <> key -> dict_get (dict_set d key value) other = dict_get d other.
Proof.
  intros Hne. induction d as [| [k v] d IH]; simpl.
  - destruct (text_eqb key other) eqn:E; [| reflexivity].
    apply text_eqb_eq in E. congruence.
  - destruct (text_eqb k key) eqn:E; simpl.
    + apply text_eqb_eq in E. subst k.
      destruct (text_eqb key other) eqn:E'; [| reflexivity].
      apply text_eqb_eq in E'. congruence.
    + destruct (text_eqb k other); [reflexivity | exact IH].
Qed.

Section JobIds.

Context {world : Collaborators}.

Lemma foldM_total {A B : Type} (f : A -> B -> result A) (xs : list B) :
  (forall a x, In x xs -> exists a', f a x = OK a') ->
  forall a, exists a', foldM f xs a = OK a'.
Proof.
  induction xs as [| x xs IH]; intros H a; simpl.
  - exists a. reflexivity.
  - destruct (H a x (or_introl eq_refl)) as [a' Ha']. rewrite Ha'. simpl.
    apply IH. intros a0 x0 Hin. apply H. right. exact Hin.
Qed.

(** [np.concatenate] has something to concatenate for a job description
    taken from the table. *)
Lemma add_jobdesc_total (ptab : ProcTable.t) (d : dict) (jobdesc : text) :
  In jobdesc (map ProcTable.jobdesc ptab) ->
  exists d', add_jobdesc ptab d jobdesc = OK d'.
Proof.
  intros Hin. apply in_map_iff in Hin. destruct Hin as [r [Hr Hin]].
  unfold add_jobdesc.
  destruct (filter (fun r => text_eqb (ProcTable.jobdesc r) jobdesc) ptab)
    as [| r' rs] eqn:E.
  - rewrite filter_nil_iff in E. specialize (E r Hin). simpl in E.
    rewrite Hr, text_eqb_refl in E. discriminate.
  - simpl. destruct (dict_get d jobdesc); eexists; reflexivity.
Qed.

Lemma tables_qids_total (ptables : list ProcTable.t) (d : dict) :
  exists d',
    foldM (fun d ptab =>
             foldM (add_jobdesc ptab) (Np.unique (map ProcTable.jobdesc ptab)) d)
          ptables d = OK d'.
Proof.
  apply foldM_total. intros a ptab _.
  apply foldM_total. intros a' jobdesc Hin.
  apply add_jobdesc_total. apply unique_In. exact Hin.
Qed.

End JobIds.

(** * The claims about [summarize_qinfo] *)

(** [IndexError] is the only exception of [summarize_qinfo]. *)
Lemma summarize_raises_IndexError (qinfo : QInfo.table) (e : exn) :
  summarize_qinfo qinfo = Raise e -> e = IndexError.
Proof.
  unfold summarize_qinfo. intros H. apply bind_Raise in H.
  destruct H as [H | [rows [_ H]]]; [| discriminate].
  apply mapM_Raise in H. destruct H as [jobdesc [_ H]].
  destruct (summary_row_cases qinfo
              (Np.sum (map QInfo.NODE_HOURS (QInfo.rows qinfo))) jobdesc)
    as [[_ [row Hrow]] | [_ Hr]]; congruence.
Qed.

Lemma summarize_missing_raises (qinfo : QInfo.table) (jobdesc : string) :
  In jobdesc jobdescs -> ~ has_jobdesc qinfo jobdesc ->
  summarize_qinfo qinfo = Raise IndexError.
Proof.
  intros Hin Hnone. destruct (summarize_qinfo qinfo) as [t | e] eqn:E.
  - exfalso. apply Hnone.
    apply summarize_succeeds_iff; [exists t; exact E | exact Hin].
  - f_equal. exact (summarize_raises_IndexError qinfo e E).
Qed.

(** C2.  When a job description of the fixed list (linkcal, nightlybias,
    ccdcalib, arc, psfnight, flat, nightlyflat, tilenight, cumulative,
    zpix) has no row in the table, [summarize_qinfo] raises an exception,
    [IndexError], and returns no summary. *)
Theorem summarize_empty_jobdesc_raises (qinfo : QInfo.table) (jobdesc : string) :
  In jobdesc jobdescs ->
  (forall r, In r (QInfo.rows qinfo) -> QInfo.JOBDESC r <> jobdesc) ->
  summarize_qinfo qinfo = Raise IndexError.
Proof.
  intros Hin Hnone. apply (summarize_missing_raises qinfo jobdesc Hin).
  intros [r [Hr Hc]]. exact (Hnone r Hr Hc).
Qed.

Lemma summarize_empty_jobdesc_raises_witness :
  summarize_qinfo sample_qinfo = Raise IndexError.
Proof.
  apply (summarize_empty_jobdesc_raises sample_qinfo "linkcal").
  - left. reflexivity.
  - intros r H. vm_compute in H.
    destruct H as [<- | [<- | [<- | []]]]; discriminate.
Defined.

(** C8.  When [summarize_qinfo] returns a table, its JOBDESC column is
    the fixed list, in the order of the list: one row for each of the ten
    job descriptions.  A table with the same rows in another order gives a
    summary with the same column. *)
Theorem summary_rows_in_fixed_order (qinfo : QInfo.table) (t : Summary.table) :
  summarize_qinfo qinfo = OK t ->
  Summary.column (Summary.names t) (Summary.rows t) "JOBDESC"
  = Some (map Summary.Str jobdescs)
  /\ List.length (Summary.rows t) = 10%nat
  /\ forall qinfo',
      Permutation (QInfo.rows qinfo) (QInfo.rows qinfo') ->
      exists t',
        summarize_qinfo qinfo' = OK t' /\
        Summary.column (Summary.names t') (Summary.rows t') "JOBDESC"
        = Some (map Summary.Str jobdescs).
Proof.
  assert (Hcol : forall q s, summarize_qinfo q = OK s ->
                 Summary.column (Summary.names s) (Summary.rows s) "JOBDESC"
                 = Some (map Summary.Str jobdescs)).
  { intros q s Hs. apply summarize_OK in Hs. destruct Hs as [-> Hrows].
    exact (summary_rows_jobdesc _ _ _ _ Hrows). }
  intros H. split; [exact (Hcol _ _ H) | split].
  - apply summarize_OK in H. destruct H as [_ Hrows].
    apply Forall2_length in Hrows. rewrite <- Hrows. reflexivity.
  - intros qinfo' Hperm.
    assert (Hall : forall c, In c jobdescs -> has_jobdesc qinfo' c).
    { intros c Hc.
      assert (Hq : has_jobdesc qinfo c).
      { apply summarize_succeeds_iff; [exists t; exact H | exact Hc]. }
      destruct Hq as [r [Hr Hd]]. exists r.
      split; [exact (Permutation_in r Hperm Hr) | exact Hd]. }
    apply summarize_succeeds_iff in Hall. destruct Hall as [t' Ht'].
    exists t'. split; [exact Ht' | exact (Hcol _ _ Ht')].
Qed.

(** C3.  The denominator of every PERCENT is the sum of NODE_HOURS over
    all the rows of the table: the rows whose job description is in the
    fixed list and the rows whose job description is not.  The summary
    has a row for the job descriptions of the list only, and whether
    [summarize_qinfo] returns depends on the job descriptions of the list
    only: a row with another job description is never an error. *)
Theorem percent_of_all_rows (qinfo : QInfo.table) :
  let tot_hours := Np.sum (map QInfo.NODE_HOURS (QInfo.rows qinfo)) in
  tot_hours
  == Np.sum (map QInfo.NODE_HOURS (filter listed (QInfo.rows qinfo)))
     + Np.sum (map QInfo.NODE_HOURS
                   (filter (fun r => negb (listed r)) (QInfo.rows qinfo)))
  /\ ((exists t, summarize_qinfo qinfo = OK t) <->
      (forall jobdesc, In jobdesc jobdescs -> has_jobdesc qinfo jobdesc))
  /\ forall t,
      summarize_qinfo qinfo = OK t ->
      Summary.column (Summary.names t) (Summary.rows t) "JOBDESC"
      = Some (map Summary.Str jobdescs)
      /\ Forall (fun row =>
                   exists node_hours,
                     Summary.lookup (Summary.names t) row "NODE_HOURS"
                     = Some (Summary.Float node_hours) /\
                     Summary.lookup (Summary.names t) row "PERCENT"
                     = Some (Summary.Float
                               (Np.round (100 * node_hours / tot_hours) 1)))
                (Summary.rows t).
Proof.
  intros tot_hours. split; [| split].
  - apply sum_filter_split.
  - apply summarize_succeeds_iff.
  - intros t H. apply summarize_OK in H. destruct H as [-> Hrows]. split.
    + exact (summary_rows_jobdesc _ _ _ _ Hrows).
    + exact (summary_rows_percent _ _ _ _ Hrows).
Qed.

(** * The claims about [load_qinfo] *)

Section LoadQinfo.

Context {world : Collaborators}.

(** C4.  In the table [load_qinfo] returns, row by row against the
    records the queue gave: a state that starts with "CANCELLED by" has
    become "CANCELLED", and any other state is the state the queue
    gave.  "CANCELLED" and "COMPLETED" themselves do not start with
    "CANCELLED by". *)
Theorem cancelled_by_rewritten (specprod : option string) (t : QInfo.table) :
  load_qinfo specprod = OK t ->
  exists jobdesc_qids qinfo,
    jobdesc_qids_of specprod = OK jobdesc_qids /\
    stack_qinfo jobdesc_qids = OK qinfo /\
    Forall2 (fun r row =>
               ((exists actor, Queue.STATE (fst r) = "CANCELLED by" ++ actor) ->
                QInfo.STATE row = "CANCELLED") /\
               (~ (exists actor, Queue.STATE (fst r) = "CANCELLED by" ++ actor) ->
                QInfo.STATE row = Queue.STATE (fst r)))%string
            qinfo (QInfo.rows t)
    /\ ~ (exists actor, "CANCELLED" = "CANCELLED by" ++ actor)%string
    /\ ~ (exists actor, "COMPLETED" = "CANCELLED by" ++ actor)%string.
Proof.
  intros H. apply load_qinfo_stages in H. destruct H as (d & qinfo & Hd & Hq & H).
  exists d, qinfo. split; [exact Hd | split; [exact Hq |]]. split; [| split].
  - apply (Forall2_impl_In _ _ _ _ (derive_rows _ _ _ H)).
    intros r row Hin [hours [_ ->]]. unfold derive_row. cbn [QInfo.STATE].
    destruct (startswith (Queue.STATE (fst r)) "CANCELLED by") eqn:E.
    + rewrite (any_true_intro
                 (fun r' => startswith (Queue.STATE (fst r')) "CANCELLED by")
                 qinfo r Hin E).
      split; [reflexivity |]. intros Hn. exfalso. apply Hn.
      apply startswith_iff. exact E.
    + rewrite andb_false_r. split; [| reflexivity].
      intros Hp. apply startswith_iff in Hp. congruence.
  - intros [actor Ha]. discriminate.
  - intros [actor Ha]. discriminate.
Qed.

(** C5.  In the table [load_qinfo] returns, row by row against the
    records the queue gave: GPU is 1 when "gpu", in lower case, occurs
    somewhere in the constraints of the record, and 0 when it does
    not. *)
Theorem gpu_flag_of_constraints (specprod : option string) (t : QInfo.table) :
  load_qinfo specprod = OK t ->
  exists jobdesc_qids qinfo,
    jobdesc_qids_of specprod = OK jobdesc_qids /\
    stack_qinfo jobdesc_qids = OK qinfo /\
    Forall2 (fun r row =>
               (substring_of "gpu" (Queue.CONSTRAINTS (fst r)) ->
                QInfo.GPU row = 1%Z) /\
               (~ substring_of "gpu" (Queue.CONSTRAINTS (fst r)) ->
                QInfo.GPU row = 0%Z))
            qinfo (QInfo.rows t).
Proof.
  intros H. apply load_qinfo_stages in H. destruct H as (d & qinfo & Hd & Hq & H).
  exists d, qinfo. split; [exact Hd | split; [exact Hq |]].
  apply (Forall2_impl_In _ _ _ _ (derive_rows _ _ _ H)).
  intros r row _ [hours [_ ->]]. unfold derive_row. cbn [QInfo.GPU].
  destruct (count (Queue.CONSTRAINTS (fst r)) "gpu" >? 0)%Z eqn:E.
  - split; [reflexivity |]. intros Hn. exfalso. apply Hn.
    apply count_positive_iff. exact E.
  - split; [| reflexivity]. intros Hs. apply count_positive_iff in Hs. congruence.
Qed.

(** C6.  When the elapsed time of some record the queue gave is not
    three fields between colons that [int] reads, [hhmmss2hours] raises
    on it and [load_qinfo] raises: the record is not skipped and no table
    is returned.  The exception is [ValueError], unless an integer too
    large for a float is met before the field that [int] does not read,
    which raises [OverflowError]; with no such integer in the records,
    both raise [ValueError]. *)
Theorem malformed_elapsed_raises (specprod : option string) (jobdesc_qids : dict)
  (qinfo : list Stacked) (r : Stacked) :
  jobdesc_qids_of specprod = OK jobdesc_qids ->
  stack_qinfo jobdesc_qids = OK qinfo ->
  In r qinfo ->
  ~ well_formed_elapsed (Queue.ELAPSED (fst r)) ->
  (hhmmss2hours (Queue.ELAPSED (fst r)) = Raise ValueError
   \/ hhmmss2hours (Queue.ELAPSED (fst r)) = Raise OverflowError)
  /\ (load_qinfo specprod = Raise ValueError
      \/ load_qinfo specprod = Raise OverflowError)
  /\ ((forall r', In r' qinfo ->
                  hhmmss2hours (Queue.ELAPSED (fst r')) <> Raise OverflowError) ->
      hhmmss2hours (Queue.ELAPSED (fst r)) = Raise ValueError
      /\ load_qinfo specprod = Raise ValueError).
Proof.
  intros Hd Hq Hin Hbad.
  assert (Hr : hhmmss2hours (Queue.ELAPSED (fst r)) = Raise ValueError
               \/ hhmmss2hours (Queue.ELAPSED (fst r)) = Raise OverflowError).
  { destruct (hhmmss2hours_cases (Queue.ELAPSED (fst r))) as [[Hwf _] | [_ Hr]];
      [contradiction | exact Hr]. }
  assert (Hl : load_qinfo specprod = derive specprod qinfo).
  { unfold load_qinfo. rewrite Hd. simpl. rewrite Hq. reflexivity. }
  split; [exact Hr | split].
  - rewrite Hl. exact (derive_malformed specprod qinfo r Hin Hbad).
  - intros Hno. split.
    + destruct Hr as [Hr | Hr]; [exact Hr | destruct (Hno r Hin Hr)].
    + rewrite Hl. exact (derive_malformed_ValueError specprod qinfo r Hin Hbad Hno).
Qed.

End LoadQinfo.

(** ** Decimal numerals *)

Lemma digits_step (c : ascii) (k acc : Z) (after_digit : bool) (rest : string) :
  digit_value c = Some k ->
  digits acc after_digit (String c rest) = digits (10 * acc + k) true rest.
Proof.
  intros H. cbn [digits]. rewrite H. reflexivity.
Qed.

Ltac read_digit k IH :=
  cbn [DecimalString.NilEmpty.string_of_uint Nat.of_uint_acc];
  rewrite (digits_step _ k) by reflexivity;
  rewrite <- (IH _ true (or_intror eq_refl));
  f_equal; rewrite Nat.tail_mul_spec; lia.

Lemma digits_of_uint (d : Decimal.uint) (acc : nat) (after_digit : bool) :
  d <> Decimal.Nil \/ after_digit = true ->
  digits (Z.of_nat acc) after_digit (DecimalString.NilEmpty.string_of_uint d)
  = Some (Z.of_nat (Nat.of_uint_acc d acc)).
Proof.
  revert acc after_digit.
  induction d as [| d IH | d IH | d IH | d IH | d IH | d IH | d IH | d IH | d IH | d IH];
    intros acc after_digit H.
  - destruct H as [H | ->]; [contradiction | reflexivity].
  - read_digit 0%Z IH.
  - read_digit 1%Z IH.
  - read_digit 2%Z IH.
  - read_digit 3%Z IH.
  - read_digit 4%Z IH.
  - read_digit 5%Z IH.
  - read_digit 6%Z IH.
  - read_digit 7%Z IH.
  - read_digit 8%Z IH.
  - read_digit 9%Z IH.
Qed.

Lemma rstrip_of_uint (d : Decimal.uint) :
  rstrip (DecimalString.NilEmpty.string_of_uint d)
  = DecimalString.NilEmpty.string_of_uint d.
Proof.
  induction d; cbn [DecimalString.NilEmpty.string_of_uint rstrip]; [reflexivity | ..];
    rewrite IHd; destruct (DecimalString.NilEmpty.string_of_uint d); reflexivity.
Qed.

Lemma has_char_of_uint (d : Decimal.uint) :
  has_char ":" (DecimalString.NilEmpty.string_of_uint d) = false.
Proof.
  induction d; cbn [DecimalString.NilEmpty.string_of_uint has_char]; [reflexivity | ..];
    rewrite IHd; reflexivity.
Qed.

Lemma int_of_uint (d : Decimal.uint) :
  d <> Decimal.Nil ->
  int (DecimalString.NilEmpty.string_of_uint d) = OK (Z.of_nat (Nat.of_uint d)).
Proof.
  intros Hd. unfold int.
  assert (Hl : lstrip (DecimalString.NilEmpty.string_of_uint d)
               = DecimalString.NilEmpty.string_of_uint d)
    by (destruct d; [contradiction | reflexivity ..]).
  rewrite Hl, rstrip_of_uint.
  pose proof (digits_of_uint d 0 false (or_introl Hd)) as H.
  change (Z.of_nat 0) with 0%Z in H. fold (Nat.of_uint d) in H.
  destruct d; [contradiction | ..];
    cbn [DecimalString.NilEmpty.string_of_uint] in H |- *; cbv iota; rewrite H;
    reflexivity.
Qed.

(** [int] reads the decimal numeral of a natural number as this number. *)
Lemma int_decimal (n : nat) : int (decimal n) = OK (Z.of_nat n).
Proof.
  unfold decimal, DecimalString.NilZero.string_of_uint.
  pose proof (DecimalNat.Unsigned.of_to n) as Hn.
  destruct (Nat.to_uint n) as [| d | d | d | d | d | d | d | d | d | d] eqn:E;
    [cbn in Hn; subst n; reflexivity | ..];
    rewrite int_of_uint by discriminate; rewrite Hn; reflexivity.
Qed.




(** * The claims at work on the small production *)

Lemma summary_rows_in_fixed_order_witness :
  Summary.column (Summary.names (summary_of (table_of (arc_jobs ++ idle_jobs))))
                 (Summary.rows (summary_of (table_of (arc_jobs ++ idle_jobs))))
                 "JOBDESC"
  = Some (map Summary.Str jobdescs)
  /\ List.length (Summary.rows (summary_of (table_of (arc_jobs ++ idle_jobs)))) = 10%nat
  /\ forall qinfo',
      Permutation (QInfo.rows (table_of (arc_jobs ++ idle_jobs))) (QInfo.rows qinfo') ->
      exists t',
        summarize_qinfo qinfo' = OK t' /\
        Summary.column (Summary.names t') (Summary.rows t') "JOBDESC"
        = Some (map Summary.Str jobdescs).
Proof.
  apply (summary_rows_in_fixed_order (table_of (arc_jobs ++ idle_jobs))
           (summary_of (table_of (arc_jobs ++ idle_jobs)))).
  vm_compute. reflexivity.
Defined.

(** With three hours of stdstarfit beside the three of arc, arc has 50
    percent, and stdstarfit has no row. *)
Lemma percent_of_all_rows_witness :
  exists node_hours percent,
    nth_error (Summary.rows (summary_of (table_of (arc_jobs ++ idle_jobs ++ unlisted_jobs)))) 3
    = Some [Summary.Str "arc"; Summary.Str "cpu"; Summary.Float node_hours;
            Summary.Float percent; Summary.Int 1; Summary.Int 0; Summary.Int 1;
            Summary.Int 0; Summary.Int 0]
    /\ node_hours == 3 /\ percent == 50
    /\ Summary.column
         (Summary.names (summary_of (table_of (arc_jobs ++ idle_jobs ++ unlisted_jobs))))
         (Summary.rows (summary_of (table_of (arc_jobs ++ idle_jobs ++ unlisted_jobs))))
         "JOBDESC"
       = Some (map Summary.Str jobdescs).
Proof.
  destruct (percent_of_all_rows (table_of (arc_jobs ++ idle_jobs ++ unlisted_jobs)))
    as (_ & _ & H).
  specialize (H (summary_of (table_of (arc_jobs ++ idle_jobs ++ unlisted_jobs)))).
  destruct H as [Hcol _]; [vm_compute; reflexivity |].
  eexists. eexists. split; [vm_compute; reflexivity |].
  split; [reflexivity | split; [reflexivity | exact Hcol]].
Defined.

Lemma cancelled_by_rewritten_witness :
  exists jobdesc_qids qinfo,
    @jobdesc_qids_of (sample_world good_logs) None = OK jobdesc_qids /\
    @stack_qinfo (sample_world good_logs) jobdesc_qids = OK qinfo /\
    Forall2 (fun r row =>
               ((exists actor, Queue.STATE (fst r) = "CANCELLED by" ++ actor) ->
                QInfo.STATE row = "CANCELLED") /\
               (~ (exists actor, Queue.STATE (fst r) = "CANCELLED by" ++ actor) ->
                QInfo.STATE row = Queue.STATE (fst r)))%string
            qinfo (QInfo.rows sample_qinfo)
    /\ ~ (exists actor, "CANCELLED" = "CANCELLED by" ++ actor)%string
    /\ ~ (exists actor, "COMPLETED" = "CANCELLED by" ++ actor)%string.
Proof.
  apply (@cancelled_by_rewritten (sample_world good_logs) None sample_qinfo).
  vm_compute. reflexivity.
Defined.

Lemma gpu_flag_of_constraints_witness :
  exists jobdesc_qids qinfo,
    @jobdesc_qids_of (sample_world good_logs) None = OK jobdesc_qids /\
    @stack_qinfo (sample_world good_logs) jobdesc_qids = OK qinfo /\
    Forall2 (fun r row =>
               (substring_of "gpu" (Queue.CONSTRAINTS (fst r)) ->
                QInfo.GPU row = 1%Z) /\
               (~ substring_of "gpu" (Queue.CONSTRAINTS (fst r)) ->
                QInfo.GPU row = 0%Z))
            qinfo (QInfo.rows sample_qinfo).
Proof.
  apply (@gpu_flag_of_constraints (sample_world good_logs) None sample_qinfo).
  vm_compute. reflexivity.
Defined.

Lemma raises_not_well_formed (s : string) :
  hhmmss2hours s = Raise ValueError -> ~ well_formed_elapsed s.
Proof.
  intros H Hwf. destruct (hhmmss2hours_cases s) as [[_ [[h Hh] | Hh]] | [Hn _]];
    [congruence | congruence | contradiction].
Qed.

(** The minutes too large for a float are met before the seconds that
    [int] does not read. *)
Example overflow_before_the_malformed_field :
  ~ well_formed_elapsed ("1:" ++ long_hours ++ ":xx")
  /\ hhmmss2hours ("1:" ++ long_hours ++ ":xx") = Raise OverflowError.
Proof.
  split; [| vm_compute; reflexivity].
  intros (hh & mm & ss & h & m & sec & Hf & _ & _ & Hs).
  apply split_three_iff in Hf.
  assert (Hss : ss = "xx") by (vm_compute in Hf; congruence).
  subst ss. vm_compute in Hs. discriminate.
Qed.

(** The job of the second log has the elapsed time "1:30". *)
Lemma malformed_elapsed_raises_witness :
  hhmmss2hours "1:30" = Raise ValueError
  /\ @load_qinfo (sample_world bad_logs) None = Raise ValueError.
Proof.
  apply (@malformed_elapsed_raises (sample_world bad_logs) None
           [(PyStr "arc", [1; 2]); (PyStr "zpix", [7; 9])]%Z
           [(sample_job 1, "arc"); (sample_job 2, "arc");
            (sample_job 7, "zpix"); (sample_job 9, "zpix")]
           (sample_job 9, "zpix")).
  - vm_compute. reflexivity.
  - vm_compute. reflexivity.
  - right. right. right. left. reflexivity.
  - apply raises_not_well_formed. vm_compute. reflexivity.
  - intros r' [<- | [<- | [<- | [<- | []]]]]; vm_compute; discriminate.
Defined.


(** The night has a zpix task with the job id 3; the log with a job id in
    its name has 7, and 7 alone is kept. *)
Example zpix_ids_of_the_small_production :
  @jobdesc_qids_of (sample_world good_logs) None
  = OK [(PyStr "arc", [1; 2]); (PyStr "zpix", [7])]%Z.
Proof. vm_compute. reflexivity. Qed.

(** * The claims about the percentages *)

(** ** Sums over the job descriptions *)

Lemma sum_map_ext {A : Type} (f g : A -> Q) (xs : list A) :
  (forall x, In x xs -> f x == g x) -> Np.sum (map f xs) == Np.sum (map g xs).
Proof.
  induction xs as [| x xs IH]; intros H; [reflexivity |].
  simpl. rewrite !sum_cons, IH, (H x (or_introl eq_refl)); [reflexivity |].
  intros y Hy. apply H. right. exact Hy.
Qed.

Lemma sum_map_plus {A : Type} (f g : A -> Q) (xs : list A) :
  Np.sum (map (fun x => f x + g x) xs) == Np.sum (map f xs) + Np.sum (map g xs).
Proof.
  induction xs as [| x xs IH]; [reflexivity |].
  simpl. rewrite !sum_cons, IH. lra.
Qed.

Lemma sum_map_scale {A : Type} (k : Q) (f : A -> Q) (xs : list A) :
  Np.sum (map (fun x => k * f x) xs) == k * Np.sum (map f xs).
Proof.
  induction xs as [| x xs IH]; [unfold Np.sum; simpl; lra |].
  simpl. rewrite !sum_cons, IH. lra.
Qed.

Lemma sum_map_zero {A : Type} (f : A -> Q) (xs : list A) :
  (forall x, In x xs -> f x == 0) -> Np.sum (map f xs) == 0.
Proof.
  induction xs as [| x xs IH]; intros H; [reflexivity |].
  simpl. rewrite sum_cons, IH, (H x (or_introl eq_refl)); [lra |].
  intros y Hy. apply H. right. exact Hy.
Qed.

(** Among distinct job descriptions, a row counts for its own alone. *)
Lemma sum_indicator (k : string) (x : Q) (cs : list string) :
  NoDup cs ->
  Np.sum (map (fun c => if String.eqb k c then x else 0) cs)
  == if existsb (String.eqb k) cs then x else 0.
Proof.
  intros Hnd. induction Hnd as [| c cs Hc _ IH]; [reflexivity |].
  simpl. rewrite sum_cons. destruct (String.eqb k c) eqn:E; simpl.
  - apply String.eqb_eq in E. subst c.
    rewrite sum_map_zero; [lra |].
    intros c Hin. destruct (String.eqb k c) eqn:E'; [| reflexivity].
    apply String.eqb_eq in E'. subst c. contradiction.
  - rewrite IH. lra.
Qed.

(** When every row has a job description of [cs], the hours of the job
    descriptions of [cs] add up to the hours of the table. *)
Lemma hours_by_jobdesc (rows : list QInfo.row) (cs : list string) :
  NoDup cs ->
  forallb (fun r => existsb (String.eqb (QInfo.JOBDESC r)) cs) rows = true ->
  Np.sum (map (fun c =>
                 Np.sum (map QInfo.NODE_HOURS
                             (filter (fun r => String.eqb (QInfo.JOBDESC r) c) rows)))
              cs)
  == Np.sum (map QInfo.NODE_HOURS rows).
Proof.
  intros Hnd. induction rows as [| r rows IH]; intros Hall.
  - simpl. apply sum_map_zero. reflexivity.
  - simpl in Hall. apply andb_true_iff in Hall. destruct Hall as [Hr Hall].
    simpl. rewrite sum_cons, <- (IH Hall).
    rewrite (sum_map_ext _
               (fun c =>
                  (if String.eqb (QInfo.JOBDESC r) c then QInfo.NODE_HOURS r else 0)
                  + Np.sum (map QInfo.NODE_HOURS
                                (filter (fun r' => String.eqb (QInfo.JOBDESC r') c) rows)))).
    + rewrite sum_map_plus, (sum_indicator _ _ _ Hnd), Hr. reflexivity.
    + intros c _. destruct (String.eqb (QInfo.JOBDESC r) c); simpl.
      * apply sum_cons.
      * lra.
Qed.

Lemma sum_close {A : Type} (f g : A -> Q) (e : Q) (xs : list A) :
  (forall x, In x xs -> Qabs (f x - g x) <= e) ->
  Qabs (Np.sum (map f xs) - Np.sum (map g xs)) <= Np.sum (map (fun _ => e) xs).
Proof.
  induction xs as [| x xs IH]; intros H.
  - cbn [map]. rewrite sum_nil. apply Qabs_Qle_condition. split; lra.
  - cbn [map]. rewrite !sum_cons.
    pose proof (H x (or_introl eq_refl)) as Hx.
    assert (Hxs : Qabs (Np.sum (map f xs) - Np.sum (map g xs))
                  <= Np.sum (map (fun _ => e) xs)).
    { apply IH. intros y Hy. apply H. right. exact Hy. }
    apply Qabs_Qle_condition in Hx, Hxs. apply Qabs_Qle_condition.
    split; lra.
Qed.

(** The percent of a job description against its share of the total:
    0.05 from rounding the percent and 5/T from rounding the hours. *)
Lemma percent_close (S T : Q) :
  0 < T ->
  Qabs (Np.round (100 * Np.round S 1 / T) 1 - 100 * S / T) <= (1 # 20) + 5 / T.
Proof.
  intros HT.
  pose proof (round1_close S) as Hn.
  pose proof (round1_close (100 * Np.round S 1 / T)) as Hp.
  apply Qabs_Qle_condition in Hn, Hp. apply Qabs_Qle_condition.
  assert (Hi : 0 < / T) by (apply Qinv_lt_0_compat; exact HT).
  unfold Qdiv in *.
  generalize dependent (Np.round (100 * Np.round S 1 * / T) 1). intros p Hp.
  generalize dependent (Np.round S 1). intros n Hn Hp.
  generalize dependent (/ T). intros i Hi Hp.
  split; nra.
Qed.

Lemma summary_row_percent (qinfo : QInfo.table) (tot : Q) (jobdesc : string)
  (row : list Summary.cell) :
  summary_row qinfo tot jobdesc = OK row ->
  Summary.lookup summary_names row "PERCENT"
  = Some (Summary.Float
            (Np.round (100 * Np.round (jobdesc_hours qinfo jobdesc) 1 / tot) 1)).
Proof.
  unfold summary_row. intros H. apply bind_OK in H. destruct H as [gpu [_ H]].
  inversion H. reflexivity.
Qed.

Lemma summary_rows_percent_column (qinfo : QInfo.table) (tot : Q) (cs : list string)
  (rows : list (list Summary.cell)) :
  Forall2 (fun jobdesc row => summary_row qinfo tot jobdesc = OK row) cs rows ->
  Summary.column summary_names rows "PERCENT"
  = Some (map Summary.Float
              (map (fun c => Np.round (100 * Np.round (jobdesc_hours qinfo c) 1 / tot) 1)
                   cs)).
Proof.
  intros H. induction H as [| c row cs' rows' Hrow _ IH]; [reflexivity |].
  cbn [Summary.column map]. rewrite (summary_row_percent _ _ _ _ Hrow), IH.
  reflexivity.
Qed.

Lemma jobdescs_NoDup : NoDup jobdescs.
Proof.
  unfold jobdescs.
  repeat (constructor;
          [simpl; intros H; repeat destruct H as [H | H]; try discriminate; exact H |]).
  constructor.
Qed.

(** C9, as the code has it.  For a table in which every row has a job
    description of the fixed list, on which [summarize_qinfo] returns and
    whose total of node hours [T] is positive, the ten values of PERCENT
    add up to 100 within [0.5 + 50/T]: rounding a percent moves it by at
    most 0.05, and rounding the node hours of a job description to one
    decimal before the percent is taken moves the percent by at most
    [5/T]. *)
Theorem percent_sum_near_100 (qinfo : QInfo.table) (t : Summary.table) :
  forallb listed (QInfo.rows qinfo) = true ->
  summarize_qinfo qinfo = OK t ->
  0 < Np.sum (map QInfo.NODE_HOURS (QInfo.rows qinfo)) ->
  exists percents,
    Summary.column (Summary.names t) (Summary.rows t) "PERCENT"
    = Some (map Summary.Float percents)
    /\ Qabs (Np.sum percents - 100)
       <= (1 # 2) + 50 / Np.sum (map QInfo.NODE_HOURS (QInfo.rows qinfo)).
Proof.
  intros Hall Ht HT. apply summarize_OK in Ht. destruct Ht as [-> Hrows].
  set (T := Np.sum (map QInfo.NODE_HOURS (QInfo.rows qinfo))) in *.
  exists (map (fun c => Np.round (100 * Np.round (jobdesc_hours qinfo c) 1 / T) 1)
              jobdescs).
  split; [exact (summary_rows_percent_column _ _ _ _ Hrows) |].
  assert (Hshare : Np.sum (map (fun c => 100 * jobdesc_hours qinfo c / T) jobdescs)
                   == 100).
  { rewrite (sum_map_ext _ (fun c => (100 / T) * jobdesc_hours qinfo c)).
    - rewrite sum_map_scale. unfold jobdesc_hours.
      rewrite (hours_by_jobdesc _ _ jobdescs_NoDup Hall). fold T.
      field. intros H0. rewrite H0 in HT. discriminate.
    - intros c _. field. intros H0. rewrite H0 in HT. discriminate. }
  rewrite <- Hshare.
  eapply Qle_trans.
  - apply (sum_close _ _ ((1 # 20) + 5 / T)).
    intros c _. apply percent_close. exact HT.
  - unfold jobdescs. cbn [map]. rewrite !sum_cons, sum_nil.
    apply Qle_lteq. right. field. intros H0. rewrite H0 in HT. discriminate.
Qed.

Lemma percent_sum_near_100_witness :
  exists percents,
    Summary.column (Summary.names (summary_of (table_of (arc_jobs ++ idle_jobs))))
                   (Summary.rows (summary_of (table_of (arc_jobs ++ idle_jobs))))
                   "PERCENT"
    = Some (map Summary.Float percents)
    /\ Qabs (Np.sum percents - 100)
       <= (1 # 2)
          + 50 / Np.sum (map QInfo.NODE_HOURS
                             (QInfo.rows (table_of (arc_jobs ++ idle_jobs)))).
Proof.
  apply (percent_sum_near_100 (table_of (arc_jobs ++ idle_jobs))
           (summary_of (table_of (arc_jobs ++ idle_jobs))));
    vm_compute; reflexivity.
Defined.

(** C9 as stated fails: with a job of 0.04 node hours for each job
    description, every row has a job description of the list and the
    total is 0.4 node hours, yet the node hours of every job description
    round to 0.0, every PERCENT is 0.0, and they add up to 0, not 100. *)
Lemma percent_sum_counterexample :
  forallb listed (QInfo.rows (table_of short_jobs)) = true
  /\ Forall (fun r => QInfo.NODE_HOURS r == 4 # 100) (QInfo.rows (table_of short_jobs))
  /\ summarize_qinfo (table_of short_jobs) = OK (summary_of (table_of short_jobs))
  /\ Summary.column (Summary.names (summary_of (table_of short_jobs)))
                    (Summary.rows (summary_of (table_of short_jobs))) "PERCENT"
     = Some (map Summary.Float (repeat (0 # 10) 10))
  /\ Np.sum (repeat (0 # 10) 10) == 0
  /\ ~ Qabs (Np.sum (repeat (0 # 10) 10) - 100) <= 1 # 2.
Proof.
  split; [reflexivity | split; [| split; [| split; [| split]]]].
  - vm_compute. repeat constructor.
  - vm_compute. reflexivity.
  - vm_compute. reflexivity.
  - reflexivity.
  - vm_compute. intros H. apply H. reflexivity.
Qed.

(** * The scenario of the two arc jobs *)

Lemma filter_none {A : Type} (p : A -> bool) (xs : list A) :
  Forall (fun x => p x = false) xs -> filter p xs = [].
Proof.
  intros H. apply filter_nil_iff. intros x Hx.
  rewrite Forall_forall in H. exact (H x Hx).
Qed.

Lemma sum_zero (xs : list Q) : Forall (fun x => x == 0) xs -> Np.sum xs == 0.
Proof.
  intros H. induction H as [| x xs Hx _ IH]; [reflexivity |].
  rewrite sum_cons, Hx, IH. lra.
Qed.

(** The arc row of a table whose arc rows are a completed job of two node
    hours and a failed job of one, and whose other rows have no node
    hours. *)
Lemma arc_row_of_scenario (qinfo : QInfo.table) (a1 a2 : QInfo.row)
  (rest : list QInfo.row) :
  QInfo.rows qinfo = a1 :: a2 :: rest ->
  QInfo.JOBDESC a1 = "arc" -> QInfo.JOBDESC a2 = "arc" ->
  QInfo.STATE a1 = "COMPLETED" -> QInfo.STATE a2 = "FAILED" ->
  QInfo.NODE_HOURS a1 == 2 -> QInfo.NODE_HOURS a2 == 1 ->
  Forall (fun r => QInfo.JOBDESC r <> "arc" /\ QInfo.NODE_HOURS r == 0) rest ->
  exists cpugpu node_hours percent,
    summary_row qinfo (Np.sum (map QInfo.NODE_HOURS (QInfo.rows qinfo))) "arc"
    = OK [Summary.Str "arc"; Summary.Str cpugpu; Summary.Float node_hours;
          Summary.Float percent; Summary.Int 1; Summary.Int 0; Summary.Int 1;
          Summary.Int 0; Summary.Int 0]
    /\ node_hours == 3 /\ percent == 100.
Proof.
  intros Hrows J1 J2 S1 S2 N1 N2 Hrest.
  assert (Hnone : filter (fun r => String.eqb (QInfo.JOBDESC r) "arc") rest = []).
  { apply filter_none. apply (Forall_impl _ (P := fun r => QInfo.JOBDESC r <> "arc"
                                                  /\ QInfo.NODE_HOURS r == 0)).
    - intros r [Hr _]. apply String.eqb_neq. exact Hr.
    - exact Hrest. }
  assert (Htot : Np.sum (map QInfo.NODE_HOURS (a1 :: a2 :: rest)) == 3).
  { cbn [map]. rewrite !sum_cons, N1, N2, sum_zero; [lra |].
    apply Forall_map. apply (Forall_impl _ (P := fun r => QInfo.JOBDESC r <> "arc"
                                                  /\ QInfo.NODE_HOURS r == 0)).
    - intros r [_ Hr]. exact Hr.
    - exact Hrest. }
  assert (Hnh : Np.round (Np.sum [QInfo.NODE_HOURS a1; QInfo.NODE_HOURS a2]) 1
                = Np.round 3 1).
  { apply round_comp. rewrite !sum_cons, sum_nil, N1, N2. lra. }
  unfold summary_row. rewrite Hrows. cbn [filter]. rewrite J1, J2.
  change (String.eqb "arc" "arc") with true. cbn iota. rewrite Hnone.
  cbn [map first bind]. rewrite Hnh, S1, S2.
  eexists. eexists. eexists. split; [reflexivity | split; [reflexivity |]].
  rewrite (round_comp _ 100); [reflexivity |].
  rewrite Htot. reflexivity.
Qed.

Lemma Forall2_Forall_r {A B : Type} (R : A -> B -> Prop) (P : A -> Prop)
  (S : B -> Prop) (xs : list A) (ys : list B) :
  Forall2 R xs ys -> Forall P xs -> (forall x y, P x -> R x y -> S y) -> Forall S ys.
Proof.
  intros H. induction H as [| x y xs' ys' Hxy _ IH]; intros HP HS; constructor.
  - inversion HP; subst. eapply HS; eassumption.
  - inversion HP; subst. apply IH; assumption.
Qed.

Section Scenario.

Context {world : Collaborators}.

Lemma derive_total (name : string) (qinfo : list Stacked) :
  (forall r, In r qinfo -> exists hours, hhmmss2hours (Queue.ELAPSED (fst r)) = OK hours) ->
  exists t, derive (Some name) qinfo = OK t.
Proof.
  intros H. unfold derive.
  destruct (mapM_total (fun r => hhmmss2hours (Queue.ELAPSED (fst r))) qinfo H)
    as [hours Hh].
  rewrite Hh. simpl. eexists. reflexivity.
Qed.

(** C1, as the code has it.  Take two arc records of the queue, on two
    nodes each, the first completed after "01:00:00" and the second
    failed after "00:30:00", followed by records of other job descriptions
    that all have the elapsed time "00:00:00".  The row that the loop of
    [summarize_qinfo] computes for arc has NODE_HOURS 3.0, PERCENT 100.0,
    COMPLETED 1, FAILED 1 and 0 for TIMEOUT, CANCELLED and NODE_FAIL.
    When every other job description of the fixed list has a record,
    [summarize_qinfo] returns a table with that row; when there is no
    other record, it raises [IndexError], for linkcal has no row. *)
Theorem arc_scenario (name : string) (r1 r2 : Queue.record) (others : list Stacked) :
  Queue.NNODES r1 = 2%Z -> Queue.ELAPSED r1 = "01:00:00" ->
  Queue.STATE r1 = "COMPLETED" ->
  Queue.NNODES r2 = 2%Z -> Queue.ELAPSED r2 = "00:30:00" ->
  Queue.STATE r2 = "FAILED" ->
  Forall (fun r => snd r <> "arc" /\ Queue.ELAPSED (fst r) = "00:00:00") others ->
  exists qinfo cpugpu node_hours percent,
    derive (Some name) ((r1, "arc") :: (r2, "arc") :: others) = OK qinfo
    /\ node_hours == 3 /\ percent == 100
    /\ summary_row qinfo (Np.sum (map QInfo.NODE_HOURS (QInfo.rows qinfo))) "arc"
       = OK [Summary.Str "arc"; Summary.Str cpugpu; Summary.Float node_hours;
             Summary.Float percent; Summary.Int 1; Summary.Int 0; Summary.Int 1;
             Summary.Int 0; Summary.Int 0]
    /\ ((forall jobdesc, In jobdesc jobdescs -> jobdesc <> "arc" ->
         exists r, In r others /\ snd r = jobdesc) ->
        exists t,
          summarize_qinfo qinfo = OK t
          /\ In [Summary.Str "arc"; Summary.Str cpugpu; Summary.Float node_hours;
                 Summary.Float percent; Summary.Int 1; Summary.Int 0; Summary.Int 1;
                 Summary.Int 0; Summary.Int 0]
                (Summary.rows t))
    /\ (others = [] -> summarize_qinfo qinfo = Raise IndexError).
Proof.
  intros N1 E1 S1 N2 E2 S2 Hothers.
  destruct (derive_total name ((r1, "arc") :: (r2, "arc") :: others)) as [qinfo Hq].
  { intros r [<- | [<- | Hr]]; cbn [fst].
    - rewrite E1. eexists. reflexivity.
    - rewrite E2. eexists. reflexivity.
    - rewrite Forall_forall in Hothers. destruct (Hothers r Hr) as [_ ->].
      eexists. reflexivity. }
  pose proof (derive_rows _ _ _ Hq) as Hrows.
  inversion Hrows as [| x1 a1 l1 rows1 Ha1 Hrows1 Hx1 Hrows_eq]. subst x1 l1.
  inversion Hrows1 as [| x2 a2 l2 rest Ha2 Hrest Hx2 Hrows1_eq]. subst x2 l2 rows1.
  clear Hrows Hrows1. symmetry in Hrows_eq.
  destruct Ha1 as [h1 [Hh1 Ha1]]. destruct Ha2 as [h2 [Hh2 Ha2]].
  cbn [fst] in Hh1, Hh2. rewrite E1 in Hh1. rewrite E2 in Hh2.
  vm_compute in Hh1, Hh2. inversion Hh1. inversion Hh2. subst h1 h2. clear Hh1 Hh2.
  assert (Hzero : Forall (fun row => QInfo.JOBDESC row <> "arc"
                                     /\ QInfo.NODE_HOURS row == 0) rest).
  { apply (Forall2_Forall_r _ _ _ _ _ Hrest Hothers).
    intros r row [Hr Her] [h [Hh ->]]. split; [exact Hr |].
    rewrite Her in Hh. vm_compute in Hh. inversion Hh. subst h.
    unfold derive_row. cbn [QInfo.NODE_HOURS].
    rewrite (round_comp _ 0); [reflexivity |]. ring. }
  destruct (arc_row_of_scenario qinfo a1 a2 rest Hrows_eq)
    as (cpugpu & node_hours & percent & Hrow & Hnh & Hp); try (subst; reflexivity).
  { subst a1. unfold derive_row. cbn [QInfo.STATE fst]. rewrite S1.
    rewrite andb_false_r. reflexivity. }
  { subst a2. unfold derive_row. cbn [QInfo.STATE fst]. rewrite S2.
    rewrite andb_false_r. reflexivity. }
  { subst a1. unfold derive_row. cbn [QInfo.NODE_HOURS fst]. rewrite N1. reflexivity. }
  { subst a2. unfold derive_row. cbn [QInfo.NODE_HOURS fst]. rewrite N2. reflexivity. }
  { exact Hzero. }
  exists qinfo, cpugpu, node_hours, percent.
  split; [exact Hq | split; [exact Hnh | split; [exact Hp | split; [exact Hrow | split]]]].
  - intros Hcover.
    assert (Hall : forall c, In c jobdescs -> has_jobdesc qinfo c).
    { intros c Hc. destruct (string_dec c "arc") as [-> | Hne].
      - exists a1. rewrite Hrows_eq. split; [left; reflexivity | subst a1; reflexivity].
      - destruct (Hcover c Hc Hne) as [r [Hr Hsnd]].
        destruct (Forall2_In_l _ _ _ _ Hrest Hr) as [row [Hin [h [_ ->]]]].
        eexists. rewrite Hrows_eq. split; [right; right; exact Hin |].
        exact Hsnd. }
    apply summarize_succeeds_iff in Hall. destruct Hall as [t Ht].
    exists t. split; [exact Ht |].
    apply summarize_OK in Ht. destruct Ht as [_ Ht].
    assert (Harc : In "arc" jobdescs) by (simpl; tauto).
    destruct (Forall2_In_l _ _ _ _ Ht Harc) as [row [Hin Hrow']].
    rewrite Hrow in Hrow'. inversion Hrow'. subst row. exact Hin.
  - intros ->. inversion Hrest. subst rest.
    apply (summarize_missing_raises qinfo "linkcal"); [left; reflexivity |].
    intros [r [Hr Hd]]. rewrite Hrows_eq in Hr.
    destruct Hr as [<- | [<- | []]]; subst; discriminate.
Qed.

End Scenario.

Lemma arc_scenario_witness :
  exists qinfo cpugpu node_hours percent,
    @derive (sample_world []) (Some "prod")
            ((queue_record 1 "cpu" 2 "01:00:00" "COMPLETED", "arc")
             :: (queue_record 2 "cpu" 2 "00:30:00" "FAILED", "arc") :: idle_jobs)
    = OK qinfo
    /\ node_hours == 3 /\ percent == 100
    /\ summary_row qinfo (Np.sum (map QInfo.NODE_HOURS (QInfo.rows qinfo))) "arc"
       = OK [Summary.Str "arc"; Summary.Str cpugpu; Summary.Float node_hours;
             Summary.Float percent; Summary.Int 1; Summary.Int 0; Summary.Int 1;
             Summary.Int 0; Summary.Int 0]
    /\ ((forall jobdesc, In jobdesc jobdescs -> jobdesc <> "arc" ->
         exists r, In r idle_jobs /\ snd r = jobdesc) ->
        exists t,
          summarize_qinfo qinfo = OK t
          /\ In [Summary.Str "arc"; Summary.Str cpugpu; Summary.Float node_hours;
                 Summary.Float percent; Summary.Int 1; Summary.Int 0; Summary.Int 1;
                 Summary.Int 0; Summary.Int 0]
                (Summary.rows t))
    /\ (idle_jobs = [] -> summarize_qinfo qinfo = Raise IndexError).
Proof.
  apply (@arc_scenario (sample_world []) "prod"
           (queue_record 1 "cpu" 2 "01:00:00" "COMPLETED")
           (queue_record 2 "cpu" 2 "00:30:00" "FAILED") idle_jobs);
    try reflexivity.
  unfold idle_jobs. cbn [map].
  repeat (constructor; [split; [discriminate | reflexivity] |]). constructor.
Defined.

(** C1 as stated fails: on the table of the two arc jobs alone,
    [summarize_qinfo] returns no table. *)
Lemma arc_scenario_counterexample :
  @derive (sample_world []) (Some "prod") arc_jobs = OK (table_of arc_jobs)
  /\ map (fun r => (QInfo.JOBDESC r, QInfo.NNODES r, QInfo.ELAPSED r, QInfo.STATE r))
         (QInfo.rows (table_of arc_jobs))
     = [("arc", 2%Z, "01:00:00", "COMPLETED"); ("arc", 2%Z, "00:30:00", "FAILED")]
  /\ summarize_qinfo (table_of arc_jobs) = Raise IndexError
  /\ ~ (exists t, summarize_qinfo (table_of arc_jobs) = OK t).
Proof.
  split; [vm_compute; reflexivity | split; [vm_compute; reflexivity |]].
  assert (H : summarize_qinfo (table_of arc_jobs) = Raise IndexError)
    by (vm_compute; reflexivity).
  split; [exact H |]. intros [t Ht]. rewrite H in Ht. discriminate.
Qed.

(** * Further properties of the module *)

(** * More about [hhmmss2hours] *)

Lemma decimal_of_uint (n : nat) :
  exists u, u <> Decimal.Nil /\ decimal n = DecimalString.NilEmpty.string_of_uint u.
Proof.
  unfold decimal, DecimalString.NilZero.string_of_uint.
  destruct (Nat.to_uint n) as [| u | u | u | u | u | u | u | u | u | u] eqn:E.
  - exists (Decimal.D0 Decimal.Nil). split; [discriminate | reflexivity].
  - exists (Decimal.D0 u). split; [discriminate | reflexivity].
  - exists (Decimal.D1 u). split; [discriminate | reflexivity].
  - exists (Decimal.D2 u). split; [discriminate | reflexivity].
  - exists (Decimal.D3 u). split; [discriminate | reflexivity].
  - exists (Decimal.D4 u). split; [discriminate | reflexivity].
  - exists (Decimal.D5 u). split; [discriminate | reflexivity].
  - exists (Decimal.D6 u). split; [discriminate | reflexivity].
  - exists (Decimal.D7 u). split; [discriminate | reflexivity].
  - exists (Decimal.D8 u). split; [discriminate | reflexivity].
  - exists (Decimal.D9 u). split; [discriminate | reflexivity].
Qed.

Lemma has_char_of_uint_any (c : ascii) (u : Decimal.uint) :
  digit_value c = None ->
  has_char c (DecimalString.NilEmpty.string_of_uint u) = false.
Proof.
  intros Hc.
  induction u; cbn [DecimalString.NilEmpty.string_of_uint has_char];
    [reflexivity | ..]; rewrite IHu, orb_false_r;
    apply Ascii.eqb_neq; intros <-; discriminate.
Qed.

Lemma has_char_decimal_any (c : ascii) (n : nat) :
  digit_value c = None -> has_char c (decimal n) = false.
Proof.
  intros Hc. destruct (decimal_of_uint n) as [u [_ ->]].
  apply has_char_of_uint_any. exact Hc.
Qed.

Lemma digits_of_uint_stop (u : Decimal.uint) (acc : Z) (after_digit : bool)
  (c : ascii) (rest : string) :
  digit_value c = None -> c <> "_"%char ->
  digits acc after_digit (DecimalString.NilEmpty.string_of_uint u ++ String c rest)
  = None.
Proof.
  intros Hc Hu. revert acc after_digit.
  induction u; intros acc after_digit;
    cbn [DecimalString.NilEmpty.string_of_uint append];
    [cbn [digits]; rewrite Hc; apply Ascii.eqb_neq in Hu; rewrite Hu; reflexivity | ..];
    erewrite digits_step by reflexivity; apply IHu.
Qed.

Lemma append_assoc (a b c : string) : ((a ++ b) ++ c = a ++ (b ++ c))%string.
Proof.
  induction a as [| x a IH]; [reflexivity |].
  cbn [append]. rewrite IH. reflexivity.
Qed.

Lemma has_char_app (c : ascii) (a b : string) :
  has_char c (a ++ b) = has_char c a || has_char c b.
Proof.
  induction a as [| x a IH]; [reflexivity |].
  cbn [append has_char]. rewrite IH, orb_assoc. reflexivity.
Qed.

Lemma rstrip_app (a b : string) :
  rstrip b = b -> b <> EmptyString -> rstrip (a ++ b) = a ++ b.
Proof.
  intros Hb Hne. induction a as [| x a IH]; [exact Hb |].
  cbn [append rstrip]. rewrite IH.
  destruct (a ++ b) eqn:E; [| reflexivity].
  destruct a; [simpl in E; congruence | discriminate].
Qed.

Lemma string_of_uint_not_empty (u : Decimal.uint) :
  u <> Decimal.Nil -> DecimalString.NilEmpty.string_of_uint u <> EmptyString.
Proof.
  destruct u; [contradiction | ..]; discriminate.
Qed.

(** Digits, a character that is no digit and no underscore, digits:
    [int] refuses it. *)
Lemma int_of_two_numerals (c : ascii) (u v : Decimal.uint) :
  u <> Decimal.Nil -> v <> Decimal.Nil ->
  digit_value c = None -> c <> "_"%char ->
  int (numeral u ++ String c (numeral v)) = Raise ValueError.
Proof.
  unfold numeral. intros Hune Hvne Hc Hu.
  unfold int.
  assert (Hl : lstrip (DecimalString.NilEmpty.string_of_uint u
                       ++ String c (DecimalString.NilEmpty.string_of_uint v))
               = DecimalString.NilEmpty.string_of_uint u
                 ++ String c (DecimalString.NilEmpty.string_of_uint v))
    by (destruct u; [contradiction | reflexivity ..]).
  rewrite Hl.
  change (DecimalString.NilEmpty.string_of_uint u
          ++ String c (DecimalString.NilEmpty.string_of_uint v))
    with (DecimalString.NilEmpty.string_of_uint u
          ++ (String c EmptyString ++ DecimalString.NilEmpty.string_of_uint v)).
  rewrite rstrip_app.
  - change (String c EmptyString ++ DecimalString.NilEmpty.string_of_uint v)
      with (String c (DecimalString.NilEmpty.string_of_uint v)).
    pose proof (digits_of_uint_stop u 0 false c
                  (DecimalString.NilEmpty.string_of_uint v) Hc Hu) as H.
    destruct u; [contradiction | ..];
      cbn [DecimalString.NilEmpty.string_of_uint append] in H |- *; cbv iota;
      rewrite H; reflexivity.
  - apply rstrip_app; [apply rstrip_of_uint | apply string_of_uint_not_empty; exact Hvne].
  - discriminate.
Qed.

(** X2.  [hhmmss2hours] refuses the elapsed time of a job of a day or
    more as the scheduler writes it, days-hours:minutes:seconds, such as
    "1-02:03:04": whatever digits the days and the hours are written
    with, leading zeros included, and whatever the other two fields are,
    the first of the three fields holds a hyphen between digits, and
    [int] raises [ValueError] on it. *)
Theorem hhmmss2hours_refuses_days (days hours : Decimal.uint) (mm ss : string) :
  days <> Decimal.Nil -> hours <> Decimal.Nil ->
  has_char ":" mm = false -> has_char ":" ss = false ->
  hhmmss2hours (numeral days ++ "-" ++ numeral hours ++ ":" ++ mm ++ ":" ++ ss)
  = Raise ValueError.
Proof.
  intros Hd Hh Hmm Hss. unfold hhmmss2hours.
  assert (Hf : elapsed_fields
                 (numeral days ++ "-" ++ numeral hours ++ ":" ++ mm ++ ":" ++ ss)
                 (numeral days ++ "-" ++ numeral hours) mm ss).
  { unfold elapsed_fields. repeat split.
    - rewrite !append_assoc. reflexivity.
    - unfold numeral. rewrite !has_char_app, !has_char_of_uint. reflexivity.
    - exact Hmm.
    - exact Hss. }
  apply split_three_iff in Hf. rewrite Hf.
  change (numeral days ++ "-" ++ numeral hours)
    with (numeral days ++ String "-" (numeral hours)).
  rewrite int_of_two_numerals;
    [reflexivity | exact Hd | exact Hh | reflexivity | discriminate].
Qed.

(** A day, two hours, three minutes and four seconds, as the scheduler
    writes them. *)
Lemma hhmmss2hours_refuses_days_witness :
  hhmmss2hours "1-02:03:04" = Raise ValueError.
Proof.
  apply (hhmmss2hours_refuses_days
           (Decimal.D1 Decimal.Nil) (Decimal.D0 (Decimal.D2 Decimal.Nil)) "03" "04").
  - discriminate.
  - discriminate.
  - reflexivity.
  - reflexivity.
Defined.

(** * More about [get_zpix_qids] *)

Lemma after_last_none (c : ascii) (s : string) :
  has_char c s = false -> after_last c s = None.
Proof.
  induction s as [| a s IH]; [reflexivity |].
  cbn [has_char after_last]. intros H. apply orb_false_iff in H.
  destruct H as [Ha Hs]. rewrite (IH Hs), Ha. reflexivity.
Qed.

Lemma after_last_app (c : ascii) (dir name : string) :
  has_char c name = false -> after_last c (dir ++ String c name) = Some name.
Proof.
  intros H. induction dir as [| a dir IH].
  - cbn [append after_last]. rewrite (after_last_none _ _ H), Ascii.eqb_refl.
    reflexivity.
  - cbn [append after_last]. rewrite IH. reflexivity.
Qed.

Lemma before_last_none (c : ascii) (s : string) :
  has_char c s = false -> before_last c s = None.
Proof.
  induction s as [| a s IH]; [reflexivity |].
  cbn [has_char before_last]. intros H. apply orb_false_iff in H.
  destruct H as [Ha Hs]. rewrite (IH Hs), Ha. reflexivity.
Qed.

Lemma before_last_app (c : ascii) (stem ext : string) :
  has_char c ext = false -> before_last c (stem ++ String c ext) = Some stem.
Proof.
  intros H. induction stem as [| a stem IH].
  - cbn [append before_last]. rewrite (before_last_none _ _ H), Ascii.eqb_refl.
    reflexivity.
  - cbn [append before_last]. rewrite IH. reflexivity.
Qed.

(** The fields of two strings joined by the separator are the fields of
    the first and then those of the second. *)
Lemma split_app (sep : ascii) (x y : string) :
  split sep (x ++ String sep y) = (split sep x ++ split sep y)%list.
Proof.
  induction x as [| a x IH].
  - cbn [append split]. rewrite Ascii.eqb_refl. reflexivity.
  - cbn [append split]. destruct (Ascii.eqb a sep).
    + rewrite IH. reflexivity.
    + rewrite IH. destruct (split sep x) as [| g gs] eqn:E;
        [exfalso; exact (split_not_nil _ _ E) | reflexivity].
Qed.

Lemma last_split_app (sep : ascii) (x f : string) :
  has_char sep f = false -> last (split sep (x ++ String sep f)) EmptyString = f.
Proof.
  intros H. rewrite split_app, (split_free _ _ H). apply last_last.
Qed.

Section ZpixLogs.

Context {world : Collaborators}.

(** X3.  The loop of [get_zpix_qids] reads the job id back from the name
    of a log: for a log [zpix-<tag>-<qid>.log] in any directory, with a
    tag without a slash, it finds [qid]. *)
Theorem zpix_qid_of_log_name (dir tag : string) (qid : nat) :
  has_char "/" tag = false ->
  zpix_qid (dir ++ "/zpix-" ++ tag ++ "-" ++ decimal qid ++ ".log") = OK (Z.of_nat qid).
Proof.
  intros Htag. unfold zpix_qid, basename, splitext_root.
  change (dir ++ "/zpix-" ++ tag ++ "-" ++ decimal qid ++ ".log")
    with (dir ++ String "/" ("zpix-" ++ tag ++ "-" ++ decimal qid ++ ".log")).
  rewrite after_last_app.
  - replace ("zpix-" ++ tag ++ "-" ++ decimal qid ++ ".log")
      with (("zpix-" ++ tag ++ "-" ++ decimal qid) ++ String "." "log").
    + rewrite before_last_app by reflexivity.
      cbn [append all_dots]. change (Ascii.eqb "z" ".") with false. cbn [andb].
      change (String "z" (String "p" (String "i" (String "x"
                (String "-" (tag ++ String "-" (decimal qid)))))))
        with (("zpix-" ++ tag) ++ String "-" (decimal qid)).
      rewrite last_split_app by (apply has_char_decimal_any; reflexivity).
      apply int_decimal.
    + cbn [append]. rewrite !append_assoc. reflexivity.
  - cbn [append has_char]. rewrite !has_char_app, Htag.
    cbn [has_char]. rewrite !has_char_app.
    rewrite (has_char_decimal_any "/" qid) by reflexivity. reflexivity.
Qed.

Lemma zpix_qid_of_log_name_witness :
  zpix_qid ("/prod/run/scripts/healpix/sv1/dark/100" ++ "/zpix-" ++ "sv1-dark"
            ++ "-" ++ decimal 7 ++ ".log") = OK (Z.of_nat 7).
Proof.
  apply (zpix_qid_of_log_name "/prod/run/scripts/healpix/sv1/dark/100" "sv1-dark" 7).
  reflexivity.
Defined.

End ZpixLogs.

(** ** Sorting strings *)

Lemma ascii_compare_lt_trans (a b c : ascii) :
  Ascii.compare a b = Lt -> Ascii.compare b c = Lt -> Ascii.compare a c = Lt.
Proof.
  unfold Ascii.compare. rewrite !N.compare_lt_iff. apply N.lt_trans.
Qed.

Lemma compare_lt_trans (x y z : string) :
  String.compare x y = Lt -> String.compare y z = Lt -> String.compare x z = Lt.
Proof.
  revert y z. induction x as [| a x IH]; intros [| b y] [| c z]; cbn [String.compare];
    try congruence.
  destruct (Ascii.compare a b) eqn:Eab; try discriminate;
    destruct (Ascii.compare b c) eqn:Ebc; try discriminate; intros Hxy Hyz.
  - apply Ascii.compare_eq_iff in Eab, Ebc. subst.
    assert (E : Ascii.compare c c = Eq).
    { unfold Ascii.compare. apply N.compare_refl. }
    rewrite E. exact (IH _ _ Hxy Hyz).
  - apply Ascii.compare_eq_iff in Eab. subst. rewrite Ebc. reflexivity.
  - apply Ascii.compare_eq_iff in Ebc. subst. rewrite Eab. reflexivity.
  - rewrite (ascii_compare_lt_trans _ _ _ Eab Ebc). reflexivity.
Qed.

Lemma leb_trans (x y z : string) :
  String.leb x y = true -> String.leb y z = true -> String.leb x z = true.
Proof.
  unfold String.leb.
  destruct (String.compare x y) eqn:Exy; try discriminate;
    destruct (String.compare y z) eqn:Eyz; try discriminate; intros _ _.
  - apply String.compare_eq_iff in Exy. subst x. rewrite Eyz. reflexivity.
  - apply String.compare_eq_iff in Exy. subst x. rewrite Eyz. reflexivity.
  - apply String.compare_eq_iff in Eyz. subst z. rewrite Exy. reflexivity.
  - rewrite (compare_lt_trans _ _ _ Exy Eyz). reflexivity.
Qed.

Lemma ltb_false_leb (x y : string) : String.ltb x y = false -> String.leb y x = true.
Proof.
  unfold String.ltb, String.leb. rewrite (String.compare_antisym x y).
  destruct (String.compare y x); simpl; congruence.
Qed.

Lemma ltb_true_leb (x y : string) : String.ltb x y = true -> String.leb x y = true.
Proof.
  unfold String.ltb, String.leb. destruct (String.compare x y); congruence.
Qed.

Lemma insert_sorted_In_iff (x y : string) (xs : list string) :
  In y (insert_sorted x xs) <-> y = x \/ In y xs.
Proof.
  split; [apply insert_sorted_In |].
  induction xs as [| z xs IH]; simpl.
  - intros [-> | []]. left. reflexivity.
  - destruct (String.ltb x z); simpl.
    + intros [-> | [-> | H]]; auto.
    + intros [-> | [-> | H]]; auto.
Qed.

Lemma sorted_In_iff (y : string) (xs : list string) : In y (sorted xs) <-> In y xs.
Proof.
  induction xs as [| x xs IH]; simpl; [tauto |].
  rewrite insert_sorted_In_iff, IH. split; intros [H | H]; auto.
Qed.

Lemma insert_sorted_perm (x : string) (xs : list string) :
  Permutation (x :: xs) (insert_sorted x xs).
Proof.
  induction xs as [| z xs IH]; simpl; [reflexivity |].
  destruct (String.ltb x z); [reflexivity |].
  rewrite perm_swap. apply perm_skip. exact IH.
Qed.

Lemma sorted_perm (xs : list string) : Permutation xs (sorted xs).
Proof.
  induction xs as [| x xs IH]; simpl; [reflexivity |].
  rewrite <- insert_sorted_perm. apply perm_skip. exact IH.
Qed.

Lemma insert_sorted_ordered (x : string) (xs : list string) :
  StronglySorted (fun a b => String.leb a b = true) xs ->
  StronglySorted (fun a b => String.leb a b = true) (insert_sorted x xs).
Proof.
  intros H. induction H as [| z xs Hxs IH Hz]; simpl.
  - constructor; constructor.
  - destruct (String.ltb x z) eqn:E.
    + constructor; [constructor; assumption |].
      constructor; [apply ltb_true_leb; exact E |].
      rewrite Forall_forall in *. intros w Hw.
      apply (leb_trans x z w); [apply ltb_true_leb; exact E | exact (Hz w Hw)].
    + constructor; [exact IH |].
      rewrite Forall_forall in *. intros w Hw.
      apply insert_sorted_In_iff in Hw. destruct Hw as [-> | Hw];
        [apply ltb_false_leb; exact E | exact (Hz w Hw)].
Qed.

Lemma sorted_ordered (xs : list string) :
  StronglySorted (fun a b => String.leb a b = true) (sorted xs).
Proof.
  induction xs as [| x xs IH]; simpl; [constructor |].
  apply insert_sorted_ordered. exact IH.
Qed.

Lemma ordered_perm_eq (xs ys : list string) :
  StronglySorted (fun a b => String.leb a b = true) xs ->
  StronglySorted (fun a b => String.leb a b = true) ys ->
  Permutation xs ys -> xs = ys.
Proof.
  intros Hx. revert ys. induction Hx as [| x xs Hxs IH Hxle]; intros ys Hy Hp.
  - apply Permutation_nil in Hp. congruence.
  - destruct Hy as [| y ys Hys Hyle].
    + apply Permutation_sym, Permutation_nil in Hp. discriminate.
    + assert (x = y).
      { rewrite Forall_forall in Hxle, Hyle.
        assert (Hy_in : In y (x :: xs))
          by (apply (Permutation_in y (Permutation_sym Hp)); left; reflexivity).
        assert (Hx_in : In x (y :: ys))
          by (apply (Permutation_in x Hp); left; reflexivity).
        destruct Hy_in as [-> | Hy_in]; [reflexivity |].
        destruct Hx_in as [-> | Hx_in]; [reflexivity |].
        apply String.leb_antisym; [exact (Hxle y Hy_in) | exact (Hyle x Hx_in)]. }
      subst y. f_equal. apply IH; [exact Hys |].
      exact (Permutation_cons_inv Hp).
Qed.

(** [sorted] does not depend on the order of what it sorts. *)
Lemma sorted_of_perm (xs ys : list string) :
  Permutation xs ys -> sorted xs = sorted ys.
Proof.
  intros H. apply ordered_perm_eq; try apply sorted_ordered.
  rewrite <- (sorted_perm xs), <- (sorted_perm ys). exact H.
Qed.

Lemma fold_left_collect {A B : Type} (f : A -> result B) (xs : list A) (acc : list B) :
  fold_left (fun acc x => match f x with
                          | OK y => (acc ++ [y])%list
                          | Raise _ => acc
                          end) xs acc
  = (acc ++ flat_map (fun x => match f x with
                               | OK y => [y]
                               | Raise _ => []
                               end) xs)%list.
Proof.
  revert acc. induction xs as [| x xs IH]; intros acc; simpl.
  - rewrite app_nil_r. reflexivity.
  - rewrite IH. destruct (f x); [rewrite <- app_assoc |]; reflexivity.
Qed.

(** The ids of [get_zpix_qids] are those of the logs whose name the body
    of the loop reads. *)
Lemma get_zpix_qids_In {world : Collaborators} (specprod : option string) (qid : Z) :
  In qid (get_zpix_qids specprod) <->
  exists filename,
    In filename (glob (specprod_root specprod
                       ++ "/run/scripts/healpix/*/*/*/zpix-*.log"))
    /\ zpix_qid filename = OK qid.
Proof.
  unfold get_zpix_qids. rewrite fold_left_collect. cbn [app].
  rewrite in_flat_map. split.
  - intros [filename [Hin Hq]]. exists filename. split.
    + apply sorted_In_iff. exact Hin.
    + destruct (zpix_qid filename) as [q | e]; [| contradiction].
      destruct Hq as [-> | []]. reflexivity.
  - intros [filename [Hin Hq]]. exists filename. split.
    + apply sorted_In_iff. exact Hin.
    + rewrite Hq. left. reflexivity.
Qed.

(** X4.  [get_zpix_qids] returns the job ids of the logs whose name ends
    in an integer, and of these only: a log without one is skipped and
    adds nothing. *)
Theorem zpix_qids_are_the_readable_logs {world : Collaborators}
  (specprod : option string) (qid : Z) :
  In qid (get_zpix_qids specprod) <->
  exists filename,
    In filename (glob (specprod_root specprod
                       ++ "/run/scripts/healpix/*/*/*/zpix-*.log"))
    /\ zpix_qid filename = OK qid.
Proof.
  exact (get_zpix_qids_In specprod qid).
Qed.

(** X5.  The order in which [glob] lists the files does not matter: two
    productions that differ in this order only have the same processing
    tables, the same zpix job ids and the same result of [load_qinfo]. *)
Theorem load_qinfo_whatever_the_listing_order (w1 w2 : Collaborators)
  (specprod : option string) :
  @findfile_proctable w1 specprod = @findfile_proctable w2 specprod ->
  @specprod_root w1 specprod = @specprod_root w2 specprod ->
  (forall pattern, Permutation (@glob w1 pattern) (@glob w2 pattern)) ->
  (forall filename, @load_table w1 filename = @load_table w2 filename) ->
  (forall qids, @queue_info_from_qids w1 qids = @queue_info_from_qids w2 qids) ->
  @environ w1 "SPECPROD" = @environ w2 "SPECPROD" ->
  @load_proctables w1 specprod = @load_proctables w2 specprod
  /\ @get_zpix_qids w1 specprod = @get_zpix_qids w2 specprod
  /\ @load_qinfo w1 specprod = @load_qinfo w2 specprod.
Proof.
  intros Hfind Hroot Hglob Hload Hqueue Henv.
  assert (Htables : @load_proctables w1 specprod = @load_proctables w2 specprod).
  { unfold load_proctables. rewrite Hfind, (sorted_of_perm _ _ (Hglob _)).
    apply map_ext. exact Hload. }
  assert (Hzpix : @get_zpix_qids w1 specprod = @get_zpix_qids w2 specprod).
  { unfold get_zpix_qids. rewrite Hroot, (sorted_of_perm _ _ (Hglob _)). reflexivity. }
  split; [exact Htables | split; [exact Hzpix |]].
  unfold load_qinfo, jobdesc_qids_of. rewrite Htables, Hzpix.
  match goal with
  | |- context [foldM ?f ?l ?a] => destruct (foldM f l a) as [d | e]; [| reflexivity]
  end.
  cbn [bind].
  assert (Hstack : forall d', @stack_qinfo w1 d' = @stack_qinfo w2 d').
  { intros d'. unfold stack_qinfo. f_equal.
    induction d' as [| [k qids] d' IH]; [reflexivity |].
    cbn [mapM]. rewrite Hqueue, IH. reflexivity. }
  rewrite Hstack.
  match goal with
  | |- context [@stack_qinfo w2 ?d'] =>
      destruct (@stack_qinfo w2 d') as [qinfo | e]; [| reflexivity]
  end.
  cbn [bind]. unfold derive. rewrite Henv. reflexivity.
Qed.

(** ** Grouping the job ids *)

Lemma text_ltb_true_leb (x y : text) : text_ltb x y = true -> text_leb x y = true.
Proof.
  destruct x, y; simpl; try congruence; apply ltb_true_leb.
Qed.

Lemma text_ltb_false_leb (x y : text) : text_ltb x y = false -> text_leb y x = true.
Proof.
  destruct x, y; simpl; try congruence; apply ltb_false_leb.
Qed.

Lemma text_leb_trans (x y z : text) :
  text_leb x y = true -> text_leb y z = true -> text_leb x z = true.
Proof.
  destruct x, y, z; simpl; try congruence; apply leb_trans.
Qed.

Lemma text_leb_antisym (x y : text) :
  text_leb x y = true -> text_leb y x = true -> x = y.
Proof.
  destruct x, y; simpl; try congruence; intros H1 H2; f_equal;
    apply String.leb_antisym; assumption.
Qed.

Lemma text_insert_sorted_ordered (x : text) (xs : list text) :
  StronglySorted (fun a b => text_leb a b = true) xs ->
  StronglySorted (fun a b => text_leb a b = true) (Np.insert_sorted x xs).
Proof.
  intros H. induction H as [| z xs Hxs IH Hz]; simpl.
  - constructor; constructor.
  - destruct (text_ltb x z) eqn:E.
    + constructor; [constructor; assumption |].
      constructor; [apply text_ltb_true_leb; exact E |].
      rewrite Forall_forall in *. intros w Hw.
      apply (text_leb_trans x z w); [apply text_ltb_true_leb; exact E | exact (Hz w Hw)].
    + constructor; [exact IH |].
      rewrite Forall_forall in *. intros w Hw.
      apply text_insert_sorted_In in Hw. destruct Hw as [-> | Hw];
        [apply text_ltb_false_leb; exact E | exact (Hz w Hw)].
Qed.

Lemma sort_ordered (xs : list text) :
  StronglySorted (fun a b => text_leb a b = true) (Np.sort xs).
Proof.
  induction xs as [| x xs IH]; simpl; [constructor |].
  apply text_insert_sorted_ordered. exact IH.
Qed.

Lemma drop_repeats_NoDup (xs : list text) :
  StronglySorted (fun a b => text_leb a b = true) xs -> NoDup (Np.drop_repeats xs).
Proof.
  intros H. induction H as [| x xs Hxs IH Hx]; [constructor |].
  cbn [Np.drop_repeats]. destruct xs as [| y r]; [repeat constructor; intros [] |].
  destruct (text_eqb x y) eqn:E; [exact IH |].
  constructor; [| exact IH].
  intros Hin. apply (proj1 (drop_repeats_In _ _)) in Hin.
  apply (proj1 (text_eqb_neq _ _)) in E.
  destruct Hin as [Hyx | Hin]; [exact (E (eq_sym Hyx)) |].
  apply E. rewrite Forall_forall in Hx.
  apply text_leb_antisym; [apply Hx; left; reflexivity |].
  inversion Hxs as [| ? ? _ Hy]; subst. rewrite Forall_forall in Hy. exact (Hy x Hin).
Qed.

(** [np.unique] gives each value once. *)
Lemma unique_NoDup (xs : list text) : NoDup (Np.unique xs).
Proof.
  apply drop_repeats_NoDup. apply sort_ordered.
Qed.

(** ** The dictionary after a table *)

Lemma dict_get_set_cases (d : dict) (key other : text) (value : list Z) :
  dict_get (dict_set d key value) other
  = if text_eqb key other then Some value else dict_get d other.
Proof.
  destruct (text_eqb key other) eqn:E.
  - apply text_eqb_eq in E. subst other. apply dict_get_set.
  - apply dict_get_set_other. apply text_eqb_neq in E. congruence.
Qed.

Lemma existsb_eqb_In (k : text) (ks : list text) :
  existsb (text_eqb k) ks = true <-> In k ks.
Proof.
  rewrite existsb_exists. split.
  - intros [x [Hx E]]. apply text_eqb_eq in E. subst. exact Hx.
  - intros H. exists k. split; [exact H | apply text_eqb_refl].
Qed.

Lemma text_eqb_sym (x y : text) : text_eqb x y = text_eqb y x.
Proof.
  destruct x, y; simpl; try reflexivity; apply String.eqb_sym.
Qed.




Section Grouping.

Context {world : Collaborators}.




(** The job ids of the rows of a table with a job description, and of all
    the tables. *)
Lemma add_jobdesc_get (ptab : ProcTable.t) (d d' : dict) (jobdesc k : text) :
  add_jobdesc ptab d jobdesc = OK d' ->
  dict_get d' k
  = if text_eqb jobdesc k
    then Some (match dict_get d k with Some present => present | None => [] end
               ++ table_qids ptab k)%list
    else dict_get d k.
Proof.
  unfold add_jobdesc, table_qids. intros H. apply bind_OK in H.
  destruct H as [qids [Hq H]].
  unfold Np.concatenate in Hq.
  destruct (map ProcTable.ALL_QIDS
                (filter (fun r => text_eqb (ProcTable.jobdesc r) jobdesc) ptab))
    as [| a l] eqn:E; [discriminate |].
  inversion Hq. subst qids. clear Hq.
  destruct (text_eqb jobdesc k) eqn:Ek.
  - apply text_eqb_eq in Ek. subst k. rewrite E.
    destruct (dict_get d jobdesc); inversion H; subst d'; rewrite dict_get_set;
      reflexivity.
  - destruct (dict_get d jobdesc); inversion H; subst d';
      rewrite dict_get_set_cases, Ek; reflexivity.
Qed.

Lemma table_get (ptab : ProcTable.t) (keys : list text) (d d' : dict) (k : text) :
  NoDup keys ->
  foldM (add_jobdesc ptab) keys d = OK d' ->
  dict_get d' k
  = if existsb (text_eqb k) keys
    then Some (match dict_get d k with Some present => present | None => [] end
               ++ table_qids ptab k)%list
    else dict_get d k.
Proof.
  intros Hnd. revert d. induction Hnd as [| key keys Hkey _ IH]; intros d H.
  - inversion H. reflexivity.
  - cbn [foldM] in H. apply bind_OK in H. destruct H as [d1 [H1 H]].
    rewrite (IH _ H). cbn [existsb].
    rewrite (add_jobdesc_get _ _ _ _ k H1).
    rewrite (text_eqb_sym k key).
    destruct (text_eqb key k) eqn:E; cbn [orb]; [| reflexivity].
    apply text_eqb_eq in E. subst k.
    destruct (existsb (text_eqb key) keys) eqn:Ein; [| reflexivity].
    apply existsb_eqb_In in Ein. contradiction.
Qed.

Lemma in_unique_column (ptab : ProcTable.t) (k : text) :
  existsb (text_eqb k) (Np.unique (map ProcTable.jobdesc ptab))
  = existsb (fun r => text_eqb (ProcTable.jobdesc r) k) ptab.
Proof.
  apply eq_true_iff_eq. rewrite existsb_eqb_In, unique_In, in_map_iff, existsb_exists.
  split.
  - intros [r [Hr Hin]]. exists r. split; [exact Hin | apply text_eqb_eq; exact Hr].
  - intros [r [Hin Hr]]. exists r. split; [apply text_eqb_eq; exact Hr | exact Hin].
Qed.

Lemma table_qids_absent (ptab : ProcTable.t) (k : text) :
  existsb (fun r => text_eqb (ProcTable.jobdesc r) k) ptab = false ->
  table_qids ptab k = [].
Proof.
  intros H. unfold table_qids. rewrite filter_none; [reflexivity |].
  apply Forall_forall. intros r Hr.
  destruct (text_eqb (ProcTable.jobdesc r) k) eqn:E; [| reflexivity].
  assert (Ht : existsb (fun r => text_eqb (ProcTable.jobdesc r) k) ptab = true)
    by (apply existsb_exists; exists r; auto).
  congruence.
Qed.

Lemma tables_get (ptables : list ProcTable.t) (d d' : dict) (k : text) :
  foldM (fun d ptab =>
           foldM (add_jobdesc ptab) (Np.unique (map ProcTable.jobdesc ptab)) d)
        ptables d = OK d' ->
  dict_get d' k
  = match dict_get d k with
    | Some present =>
        Some (present ++ List.concat (map (fun ptab => table_qids ptab k) ptables))%list
    | None =>
        if existsb (fun ptab =>
                      existsb (fun r => text_eqb (ProcTable.jobdesc r) k) ptab)
                   ptables
        then Some (List.concat (map (fun ptab => table_qids ptab k) ptables))
        else None
    end.
Proof.
  revert d. induction ptables as [| ptab ptables IH]; intros d H.
  - inversion H. cbn [map List.concat existsb].
    destruct (dict_get d' k); [rewrite app_nil_r |]; reflexivity.
  - cbn [foldM] in H. apply bind_OK in H. destruct H as [d1 [H1 H]].
    rewrite (IH _ H). rewrite (table_get _ _ _ _ k (unique_NoDup _) H1).
    rewrite in_unique_column. cbn [map List.concat existsb].
    destruct (existsb (fun r => text_eqb (ProcTable.jobdesc r) k) ptab) eqn:E.
    + cbn [orb]. destruct (dict_get d k); rewrite <- ?app_assoc; reflexivity.
    + rewrite (table_qids_absent _ _ E). cbn [orb app]. reflexivity.
Qed.

(** The entry of a key other than the [str] "zpix". *)
Lemma jobdesc_qids_of_get (specprod : option string) (jobdesc_qids : dict)
  (jobdesc : text) :
  jobdesc_qids_of specprod = OK jobdesc_qids ->
  jobdesc <> PyStr "zpix" ->
  dict_get jobdesc_qids jobdesc
  = if existsb (fun ptab =>
                  existsb (fun r => text_eqb (ProcTable.jobdesc r) jobdesc) ptab)
               (load_proctables specprod)
    then Some (List.concat (map (fun ptab => table_qids ptab jobdesc)
                                (load_proctables specprod)))
    else None.
Proof.
  unfold jobdesc_qids_of. intros H Hne. apply bind_OK in H.
  destruct H as [d [Hd H]]. inversion H. subst jobdesc_qids.
  rewrite dict_get_set_other by exact Hne.
  rewrite (tables_get _ _ _ jobdesc Hd). reflexivity.
Qed.




End Grouping.




(** * More about [load_qinfo] *)

Lemma round4_close (x : Q) : Qabs (Np.round x 4 - x) <= 1 # 20000.
Proof.
  unfold Np.round. change (inject_Z (10 ^ Z.of_nat 4)) with 10000.
  pose proof (rint_close (x * 10000)) as H.
  apply Qabs_Qle_condition in H. apply Qabs_Qle_condition.
  generalize dependent (inject_Z (Np.rint (x * 10000))). intros y H.
  assert (E : y / 10000 == y * (1 # 10000)) by (unfold Qdiv; reflexivity).
  rewrite E. split; lra.
Qed.

Lemma dict_In_get (d : dict) (k : text) (v : list Z) :
  In (k, v) d -> exists v', dict_get d k = Some v'.
Proof.
  induction d as [| [k' v'] d IH]; [intros [] |].
  intros [H | H]; cbn [dict_get].
  - inversion H. subst. rewrite text_eqb_refl. eexists. reflexivity.
  - destruct (text_eqb k' k); [eexists; reflexivity | exact (IH H)].
Qed.

Lemma chars_jobdesc (r : ProcTable.row) :
  chars (ProcTable.jobdesc r) = ProcTable.JOBDESC r.
Proof.
  unfold ProcTable.jobdesc. destruct (ProcTable.BYTES r); reflexivity.
Qed.

Section MoreLoadQinfo.

Context {world : Collaborators}.

(** Every stacked record is a record the queue gave for the job ids of
    a key with the characters of its job description. *)
Lemma stack_qinfo_In (jobdesc_qids : dict) (qinfo : list Stacked) (r : Stacked) :
  stack_qinfo jobdesc_qids = OK qinfo ->
  In r qinfo <->
  exists key qids records,
    In (key, qids) jobdesc_qids
    /\ chars key = snd r
    /\ queue_info_from_qids qids = OK records
    /\ In (fst r) records.
Proof.
  unfold stack_qinfo. intros H. apply bind_OK in H. destruct H as [tables [Ht H]].
  inversion H. subst qinfo. clear H. apply mapM_OK in Ht.
  rewrite in_concat. split.
  - intros [table [Htable Hr]].
    destruct (Forall2_In_r _ _ _ _ Ht Htable) as [[k qids] [Hk Hq]].
    apply bind_OK in Hq. destruct Hq as [records [Hrec Hq]].
    inversion Hq. subst table. apply in_map_iff in Hr.
    destruct Hr as [q [<- Hq']]. exists k, qids, records. auto.
  - intros (key & qids & records & Hk & Hc & Hrec & Hr).
    destruct (Forall2_In_l _ _ _ _ Ht Hk) as [table [Htable Hq]].
    rewrite Hrec in Hq. cbn [bind] in Hq. inversion Hq. subst table.
    eexists. split; [exact Htable |].
    apply in_map_iff. exists (fst r). split; [| exact Hr].
    rewrite Hc. destruct r; reflexivity.
Qed.

(** The stack is made of the answers of the queue, all of them and in
    the order of the dictionary. *)
Lemma stack_qinfo_answers (jobdesc_qids : dict) (qinfo : list Stacked) :
  stack_qinfo jobdesc_qids = OK qinfo ->
  exists answers,
    Forall2 (fun entry records => queue_info_from_qids (snd entry) = OK records)
            jobdesc_qids answers
    /\ qinfo = stacked jobdesc_qids answers.
Proof.
  unfold stack_qinfo, stacked. intros H. apply bind_OK in H.
  destruct H as [tables [Ht H]]. inversion H. subst qinfo. clear H.
  revert tables Ht. induction jobdesc_qids as [| [k qids] d IH]; intros tables Ht.
  - inversion Ht. subst. exists []. split; [constructor | reflexivity].
  - cbn [mapM] in Ht. apply bind_OK in Ht. destruct Ht as [table [Htable Ht]].
    apply bind_OK in Ht. destruct Ht as [tables' [Ht Ht']]. inversion Ht'. subst tables.
    apply bind_OK in Htable. destruct Htable as [records [Hrec Htable]].
    inversion Htable. subst table.
    destruct (IH tables' Ht) as [answers [Hans Heq]].
    exists (records :: answers). split; [constructor; assumption |].
    cbn [combine map List.concat fst snd]. rewrite Heq. reflexivity.
Qed.

Lemma stacked_records (jobdesc_qids : dict) (answers : list (list Queue.record)) :
  List.length jobdesc_qids = List.length answers ->
  map fst (stacked jobdesc_qids answers) = List.concat answers.
Proof.
  unfold stacked. revert answers.
  induction jobdesc_qids as [| entry d IH]; intros [| records answers] Hlen;
    try discriminate; [reflexivity |].
  cbn [combine map List.concat fst snd]. rewrite map_app, IH by (inversion Hlen; reflexivity).
  rewrite map_map. cbn [fst]. rewrite map_id. reflexivity.
Qed.

(** X7.  The table that [load_qinfo] returns has one row for each record
    the queue gave, and no other: the records of the answers of the
    queue, entry after entry of the dictionary and record after record,
    are the rows in this order.  The row of a record has the characters
    of the key the record was asked under as JOBDESC, and the columns of
    the record, all but STATE unchanged. *)
Theorem queue_columns_kept (specprod : option string) (t : QInfo.table) :
  load_qinfo specprod = OK t ->
  exists jobdesc_qids answers,
    jobdesc_qids_of specprod = OK jobdesc_qids /\
    Forall2 (fun entry records => queue_info_from_qids (snd entry) = OK records)
            jobdesc_qids answers /\
    map QInfo.JOBID (QInfo.rows t) = map Queue.JOBID (List.concat answers) /\
    Forall2 (fun r row =>
               QInfo.JOBDESC row = snd r
               /\ QInfo.JOBID row = Queue.JOBID (fst r)
               /\ QInfo.JOBNAME row = Queue.JOBNAME (fst r)
               /\ QInfo.PARTITION row = Queue.PARTITION (fst r)
               /\ QInfo.CONSTRAINTS row = Queue.CONSTRAINTS (fst r)
               /\ QInfo.NNODES row = Queue.NNODES (fst r)
               /\ QInfo.SUBMIT row = Queue.SUBMIT (fst r)
               /\ QInfo.ELIGIBLE row = Queue.ELIGIBLE (fst r)
               /\ QInfo.START row = Queue.START (fst r)
               /\ QInfo.END_ row = Queue.END_ (fst r)
               /\ QInfo.ELAPSED row = Queue.ELAPSED (fst r)
               /\ QInfo.EXITCODE row = Queue.EXITCODE (fst r))
            (stacked jobdesc_qids answers) (QInfo.rows t).
Proof.
  intros H. apply load_qinfo_stages in H. destruct H as (d & qinfo & Hd & Hq & H).
  destruct (stack_qinfo_answers d qinfo Hq) as [answers [Hans ->]].
  exists d, answers. split; [exact Hd | split; [exact Hans |]].
  assert (Hrows : Forall2 (fun r row => exists hours, row = derive_row
                             (Np.any (map (fun r => startswith (Queue.STATE (fst r))
                                                               "CANCELLED by")
                                          (stacked d answers))) r hours)
                          (stacked d answers) (QInfo.rows t)).
  { apply (Forall2_impl_In _ _ _ _ (derive_rows _ _ _ H)).
    intros r row _ [hours [_ ->]]. exists hours. reflexivity. }
  split.
  - rewrite <- (stacked_records d answers) by exact (Forall2_length Hans).
    rewrite map_map. clear - Hrows. induction Hrows as [| r row rs rows [hours ->] _ IH];
      [reflexivity |].
    cbn [map]. rewrite IH. reflexivity.
  - apply (Forall2_impl_In _ _ _ _ Hrows).
    intros r row _ [hours ->]. unfold derive_row. cbn. repeat split.
Qed.

(** X8.  In the table that [load_qinfo] returns, NODE_HOURS of every row
    is the hours of ELAPSED times NNODES rounded to four decimals, and so
    within 0.00005 of that product. *)
Theorem node_hours_of_elapsed (specprod : option string) (t : QInfo.table) :
  load_qinfo specprod = OK t ->
  Forall (fun row =>
            exists hours,
              hhmmss2hours (QInfo.ELAPSED row) = OK hours
              /\ QInfo.NODE_HOURS row
                 = Np.round (hours * inject_Z (QInfo.NNODES row)) 4
              /\ Qabs (QInfo.NODE_HOURS row - hours * inject_Z (QInfo.NNODES row))
                 <= 1 # 20000)
         (QInfo.rows t).
Proof.
  intros H. apply load_qinfo_stages in H. destruct H as (d & qinfo & _ & _ & H).
  apply derive_rows in H. apply Forall_forall. intros row Hrow.
  destruct (Forall2_In_r _ _ _ _ H Hrow) as [r [_ [hours [Hh ->]]]].
  exists hours. unfold derive_row. cbn [QInfo.ELAPSED QInfo.NODE_HOURS QInfo.NNODES].
  split; [exact Hh | split; [reflexivity | apply round4_close]].
Qed.

(** X9.  The table that [load_qinfo] returns carries the name of the
    production under SPECPROD: the name given, or without one the value
    of SPECPROD in the environment. *)
Theorem specprod_of_the_table (specprod : option string) (t : QInfo.table) :
  load_qinfo specprod = OK t ->
  exists name,
    QInfo.meta t = [("SPECPROD", name)]
    /\ match specprod with
       | Some given => name = given
       | None => environ "SPECPROD" = Some name
       end.
Proof.
  intros H. apply load_qinfo_stages in H. destruct H as (d & qinfo & _ & _ & H).
  unfold derive in H. apply bind_OK in H. destruct H as [hours [_ H]].
  apply bind_OK in H. destruct H as [name [Hname H]]. inversion H. subst t.
  exists name. split; [reflexivity |].
  destruct specprod as [given |].
  - inversion Hname. reflexivity.
  - destruct (environ "SPECPROD"); inversion Hname. reflexivity.
Qed.

(** X11.  When the queue raises for the job ids of some job description
    of the dictionary, [load_qinfo] raises and returns no table. *)
Theorem queue_failure_propagates (specprod : option string) (jobdesc_qids : dict)
  (jobdesc : text) (qids : list Z) (e : exn) :
  jobdesc_qids_of specprod = OK jobdesc_qids ->
  In (jobdesc, qids) jobdesc_qids ->
  queue_info_from_qids qids = Raise e ->
  exists e', load_qinfo specprod = Raise e'.
Proof.
  intros Hd Hin Hq. unfold load_qinfo. rewrite Hd. cbn [bind]. unfold stack_qinfo.
  destruct (mapM_fails
              (fun '(jobdesc, qids) =>
                 jobdesc_qinfo <- queue_info_from_qids qids ;;
                 OK (map (fun r => (r, chars jobdesc)) jobdesc_qinfo))
              jobdesc_qids (jobdesc, qids) e Hin) as [e' He'].
  - rewrite Hq. reflexivity.
  - exists e'. rewrite He'. reflexivity.
Qed.

End MoreLoadQinfo.

Section Unsummarizable.

Context {world : Collaborators}.

(** X12.  A table that [load_qinfo] returns cannot be summarized when
    some job description of the fixed list other than "zpix" is in no
    processing table: [summarize_qinfo] raises [IndexError] on it. *)
Theorem summary_needs_the_jobdesc_in_the_tables (specprod : option string)
  (t : QInfo.table) (jobdesc : string) :
  load_qinfo specprod = OK t ->
  In jobdesc jobdescs -> jobdesc <> "zpix" ->
  existsb (fun ptab => existsb (fun r => String.eqb (ProcTable.JOBDESC r) jobdesc) ptab)
          (load_proctables specprod) = false ->
  summarize_qinfo t = Raise IndexError.
Proof.
  intros H Hin Hne Habsent.
  apply load_qinfo_stages in H. destruct H as (d & qinfo & Hd & Hq & H).
  apply (summarize_missing_raises t jobdesc Hin).
  intros [row [Hrow Hj]].
  destruct (Forall2_In_r _ _ _ _ (derive_rows _ _ _ H) Hrow) as [r [Hr [hours [_ ->]]]].
  unfold derive_row in Hj. cbn [QInfo.JOBDESC] in Hj.
  apply (stack_qinfo_In _ _ r Hq) in Hr.
  destruct Hr as (key & qids & records & Hk & Hc & _ & _).
  rewrite Hj in Hc. destruct (dict_In_get _ _ _ Hk) as [v Hv].
  assert (Hkey : key <> PyStr "zpix") by (intros ->; apply Hne; symmetry; exact Hc).
  rewrite (jobdesc_qids_of_get specprod d key Hd Hkey) in Hv.
  destruct (existsb (fun ptab =>
                       existsb (fun r => text_eqb (ProcTable.jobdesc r) key) ptab)
                    (load_proctables specprod)) eqn:Ex; [| discriminate].
  apply existsb_exists in Ex. destruct Ex as [ptab [Hp Ex]].
  apply existsb_exists in Ex. destruct Ex as [r' [Hr' Ex]].
  apply text_eqb_eq in Ex.
  assert (Ht : existsb (fun ptab =>
                          existsb (fun r => String.eqb (ProcTable.JOBDESC r) jobdesc) ptab)
                       (load_proctables specprod) = true).
  { apply existsb_exists. exists ptab. split; [exact Hp |].
    apply existsb_exists. exists r'. split; [exact Hr' |].
    apply String.eqb_eq. rewrite <- chars_jobdesc, Ex. exact Hc. }
  congruence.
Qed.

End Unsummarizable.

(** * More about [summarize_qinfo] *)

Lemma filter_perm {A : Type} (p : A -> bool) (xs ys : list A) :
  Permutation xs ys -> Permutation (filter p xs) (filter p ys).
Proof.
  intros H. induction H as [| x xs ys _ IH | x y xs | xs ys zs _ IH1 _ IH2].
  - constructor.
  - cbn [filter]. destruct (p x); [apply perm_skip |]; exact IH.
  - cbn [filter]. destruct (p x), (p y); try reflexivity. apply perm_swap.
  - exact (Permutation_trans IH1 IH2).
Qed.

Lemma count_nonzero_perm (xs ys : list bool) :
  Permutation xs ys -> Np.count_nonzero xs = Np.count_nonzero ys.
Proof.
  intros H. unfold Np.count_nonzero. f_equal.
  apply Permutation_length. apply filter_perm. exact H.
Qed.

Lemma Forall2_same_left {A B C : Type} (R : A -> B -> Prop) (S : A -> C -> Prop)
  (T : B -> C -> Prop) (xs : list A) (ys : list B) (zs : list C) :
  Forall2 R xs ys -> Forall2 S xs zs ->
  (forall x y z, R x y -> S x z -> T y z) ->
  Forall2 T ys zs.
Proof.
  intros HR. revert zs. induction HR as [| x y xs ys Hxy _ IH]; intros zs HS HT.
  - inversion HS. constructor.
  - inversion HS as [| ? z ? zs' Hxz HS']. subst.
    constructor; [exact (HT x y z Hxy Hxz) | exact (IH zs' HS' HT)].
Qed.

(** The row of a job description, cell by cell. *)
Lemma summary_row_cells (qinfo : QInfo.table) (tot : Q) (jobdesc : string)
  (row : list Summary.cell) :
  summary_row qinfo tot jobdesc = OK row ->
  exists r rest,
    filter (fun r => String.eqb (QInfo.JOBDESC r) jobdesc) (QInfo.rows qinfo)
    = r :: rest
    /\ row
       = [Summary.Str jobdesc;
          Summary.Str (if (QInfo.GPU r =? 0)%Z then "cpu" else "gpu");
          Summary.Float (Np.round (jobdesc_hours qinfo jobdesc) 1);
          Summary.Float
            (Np.round (100 * Np.round (jobdesc_hours qinfo jobdesc) 1 / tot) 1);
          Summary.Int (Np.count_nonzero
                         (map (fun r => String.eqb (QInfo.STATE r) "COMPLETED")
                              (r :: rest)));
          Summary.Int (Np.count_nonzero
                         (map (fun r => String.eqb (QInfo.STATE r) "TIMEOUT")
                              (r :: rest)));
          Summary.Int (Np.count_nonzero
                         (map (fun r => String.eqb (QInfo.STATE r) "FAILED")
                              (r :: rest)));
          Summary.Int (Np.count_nonzero
                         (map (fun r => String.eqb (QInfo.STATE r) "CANCELLED")
                              (r :: rest)));
          Summary.Int (Np.count_nonzero
                         (map (fun r => String.eqb (QInfo.STATE r) "NODE_FAIL")
                              (r :: rest)))].
Proof.
  unfold summary_row, jobdesc_hours.
  destruct (filter (fun r => String.eqb (QInfo.JOBDESC r) jobdesc) (QInfo.rows qinfo))
    as [| r rest]; [discriminate |].
  intros H. cbn [map first bind] in H. inversion H.
  exists r, rest. split; reflexivity.
Qed.

(** X13.  CPUGPU of a job description is decided by the first of its rows
    in the table alone: "cpu" when GPU of that row is 0 and "gpu"
    otherwise, whatever GPU is in its other rows. *)
Theorem cpugpu_of_the_first_row (qinfo : QInfo.table) (t : Summary.table)
  (jobdesc : string) (r : QInfo.row) (rest : list QInfo.row) :
  summarize_qinfo qinfo = OK t ->
  In jobdesc jobdescs ->
  filter (fun r => String.eqb (QInfo.JOBDESC r) jobdesc) (QInfo.rows qinfo)
  = r :: rest ->
  exists row,
    In row (Summary.rows t)
    /\ Summary.lookup (Summary.names t) row "JOBDESC" = Some (Summary.Str jobdesc)
    /\ Summary.lookup (Summary.names t) row "CPUGPU"
       = Some (Summary.Str (if (QInfo.GPU r =? 0)%Z then "cpu" else "gpu")).
Proof.
  intros Ht Hin Hsel. apply summarize_OK in Ht. destruct Ht as [-> Hrows].
  destruct (Forall2_In_l _ _ _ _ Hrows Hin) as [row [Hrow Hc]].
  exists row. split; [exact Hrow |].
  apply summary_row_cells in Hc. destruct Hc as (r' & rest' & Hsel' & ->).
  rewrite Hsel in Hsel'. inversion Hsel'. subst. split; reflexivity.
Qed.

(** X14.  The summary of a table with its rows in another order has the
    same job descriptions and the same counts of states, row by row.
    (CPUGPU follows the first row of a job description, and the node
    hours and the percentages are sums of floats, which the order of the
    terms may change.) *)
Theorem summary_whatever_the_row_order (qinfo qinfo' : QInfo.table)
  (t : Summary.table) :
  summarize_qinfo qinfo = OK t ->
  Permutation (QInfo.rows qinfo) (QInfo.rows qinfo') ->
  exists t',
    summarize_qinfo qinfo' = OK t'
    /\ Summary.names t' = Summary.names t
    /\ Forall2 (fun row row' =>
                  forall name,
                    name <> "CPUGPU" -> name <> "NODE_HOURS" -> name <> "PERCENT" ->
                    Summary.lookup (Summary.names t) row name
                    = Summary.lookup (Summary.names t) row' name)
               (Summary.rows t) (Summary.rows t').
Proof.
  intros Ht Hperm.
  assert (Hall : forall c, In c jobdescs -> has_jobdesc qinfo' c).
  { intros c Hc.
    assert (Hq : has_jobdesc qinfo c)
      by (apply summarize_succeeds_iff; [exists t; exact Ht | exact Hc]).
    destruct Hq as [r [Hr Hd]]. exists r.
    split; [exact (Permutation_in r Hperm Hr) | exact Hd]. }
  apply summarize_succeeds_iff in Hall. destruct Hall as [t' Ht'].
  exists t'. split; [exact Ht' |].
  apply summarize_OK in Ht, Ht'. destruct Ht as [Hn Hrows]. destruct Ht' as [Hn' Hrows'].
  split; [congruence |]. rewrite Hn.
  apply (Forall2_same_left _ _ _ _ _ _ Hrows Hrows').
  intros c row row' Hrow Hrow' name Hcpugpu Hhours Hpercent.
  apply summary_row_cells in Hrow, Hrow'.
  destruct Hrow as (r & rest & Hsel & ->). destruct Hrow' as (r' & rest' & Hsel' & ->).
  assert (Hp : Permutation (r :: rest) (r' :: rest')).
  { rewrite <- Hsel, <- Hsel'. apply filter_perm. exact Hperm. }
  rewrite !(count_nonzero_perm _ _ (Permutation_map _ Hp)).
  cbn [Summary.lookup summary_names].
  destruct (String.eqb "JOBDESC" name); [reflexivity |].
  destruct (String.eqb "CPUGPU" name) eqn:E1;
    [apply String.eqb_eq in E1; congruence |].
  destruct (String.eqb "NODE_HOURS" name) eqn:E2;
    [apply String.eqb_eq in E2; congruence |].
  destruct (String.eqb "PERCENT" name) eqn:E3;
    [apply String.eqb_eq in E3; congruence | reflexivity].
Qed.

Lemma count_nonzero_cons (b : bool) (bs : list bool) :
  Np.count_nonzero (b :: bs) = ((if b then 1 else 0) + Np.count_nonzero bs)%Z.
Proof.
  unfold Np.count_nonzero. cbn [filter]. destruct b; cbn [List.length]; lia.
Qed.

(** The counts of the five states add up to the number of rows in one of
    them. *)
Lemma state_counts_add_up (sel : list QInfo.row) :
  (Np.count_nonzero (map (fun r => String.eqb (QInfo.STATE r) "COMPLETED") sel)
   + Np.count_nonzero (map (fun r => String.eqb (QInfo.STATE r) "TIMEOUT") sel)
   + Np.count_nonzero (map (fun r => String.eqb (QInfo.STATE r) "FAILED") sel)
   + Np.count_nonzero (map (fun r => String.eqb (QInfo.STATE r) "CANCELLED") sel)
   + Np.count_nonzero (map (fun r => String.eqb (QInfo.STATE r) "NODE_FAIL") sel)
   = Z.of_nat (List.length
                 (filter (fun r => existsb (String.eqb (QInfo.STATE r)) jobstates) sel)))%Z.
Proof.
  induction sel as [| r sel IH]; [reflexivity |].
  cbn [map filter]. rewrite !count_nonzero_cons. cbn [existsb jobstates] in IH |- *.
  destruct (String.eqb (QInfo.STATE r) "COMPLETED") eqn:E1;
    [apply String.eqb_eq in E1; rewrite E1 |];
    [| destruct (String.eqb (QInfo.STATE r) "TIMEOUT") eqn:E2;
       [apply String.eqb_eq in E2; rewrite E2 |]];
    [| | destruct (String.eqb (QInfo.STATE r) "FAILED") eqn:E3;
         [apply String.eqb_eq in E3; rewrite E3 |]];
    [| | | destruct (String.eqb (QInfo.STATE r) "CANCELLED") eqn:E4;
           [apply String.eqb_eq in E4; rewrite E4 |]];
    [| | | | destruct (String.eqb (QInfo.STATE r) "NODE_FAIL") eqn:E5];
    cbn [String.eqb Ascii.eqb Bool.eqb andb orb List.length];
    cbn [List.length]; lia.
Qed.

Lemma filter_and {A : Type} (p q : A -> bool) (xs : list A) :
  filter (fun x => p x && q x) xs = filter q (filter p xs).
Proof.
  induction xs as [| x xs IH]; [reflexivity |].
  cbn [filter]. destruct (p x); cbn [andb filter]; [destruct (q x) |];
    rewrite IH; reflexivity.
Qed.

Lemma filter_shorter {A : Type} (p : A -> bool) (xs : list A) :
  (List.length (filter p xs) <= List.length xs)%nat.
Proof.
  induction xs as [| x xs IH]; [apply le_n |].
  cbn [filter]. destruct (p x); cbn [List.length]; lia.
Qed.

(** X15.  In every row of the summary the five counts add up to the
    number of rows of the job description whose state is one of the five:
    a job in another state is in no count, so the counts can add up to
    less than the number of jobs. *)
Theorem state_counts_of_the_summary (qinfo : QInfo.table) (t : Summary.table) :
  summarize_qinfo qinfo = OK t ->
  Forall2 (fun jobdesc row =>
             exists completed timeout failed cancelled node_fail,
               Summary.lookup (Summary.names t) row "COMPLETED"
               = Some (Summary.Int completed)
               /\ Summary.lookup (Summary.names t) row "TIMEOUT"
                  = Some (Summary.Int timeout)
               /\ Summary.lookup (Summary.names t) row "FAILED"
                  = Some (Summary.Int failed)
               /\ Summary.lookup (Summary.names t) row "CANCELLED"
                  = Some (Summary.Int cancelled)
               /\ Summary.lookup (Summary.names t) row "NODE_FAIL"
                  = Some (Summary.Int node_fail)
               /\ (completed + timeout + failed + cancelled + node_fail
                   = Z.of_nat
                       (List.length
                          (filter (fun r =>
                                     String.eqb (QInfo.JOBDESC r) jobdesc
                                     && existsb (String.eqb (QInfo.STATE r)) jobstates)
                                  (QInfo.rows qinfo))))%Z
               /\ (completed + timeout + failed + cancelled + node_fail
                   <= Z.of_nat
                        (List.length
                           (filter (fun r => String.eqb (QInfo.JOBDESC r) jobdesc)
                                   (QInfo.rows qinfo))))%Z)
          jobdescs (Summary.rows t).
Proof.
  intros Ht. apply summarize_OK in Ht. destruct Ht as [-> Hrows].
  apply (Forall2_impl_In _ _ _ _ Hrows).
  intros c row _ Hrow. apply summary_row_cells in Hrow.
  destruct Hrow as (r & rest & Hsel & ->).
  do 5 eexists. repeat (split; [reflexivity |]).
  rewrite state_counts_add_up, <- Hsel, filter_and.
  split; [reflexivity |]. apply Nat2Z.inj_le. apply filter_shorter.
Qed.

Lemma mapM_ext {A B : Type} (f g : A -> result B) (xs : list A) :
  (forall x, In x xs -> f x = g x) -> mapM f xs = mapM g xs.
Proof.
  induction xs as [| x xs IH]; intros H; [reflexivity |].
  cbn [mapM]. rewrite (H x (or_introl eq_refl)), IH; [reflexivity |].
  intros y Hy. apply H. right. exact Hy.
Qed.

Lemma filter_same_columns (jobdesc : string) (rows rows' : list QInfo.row) :
  Forall2 (fun r r' =>
             QInfo.JOBDESC r = QInfo.JOBDESC r'
             /\ QInfo.NODE_HOURS r = QInfo.NODE_HOURS r'
             /\ QInfo.GPU r = QInfo.GPU r'
             /\ QInfo.STATE r = QInfo.STATE r') rows rows' ->
  Forall2 (fun r r' =>
             QInfo.JOBDESC r = QInfo.JOBDESC r'
             /\ QInfo.NODE_HOURS r = QInfo.NODE_HOURS r'
             /\ QInfo.GPU r = QInfo.GPU r'
             /\ QInfo.STATE r = QInfo.STATE r')
          (filter (fun r => String.eqb (QInfo.JOBDESC r) jobdesc) rows)
          (filter (fun r => String.eqb (QInfo.JOBDESC r) jobdesc) rows').
Proof.
  intros H. induction H as [| r r' rows rows' Hr _ IH]; [constructor |].
  cbn [filter]. destruct Hr as (Hj & Hn & Hg & Hs). rewrite <- Hj.
  destruct (String.eqb (QInfo.JOBDESC r) jobdesc); [constructor; auto | exact IH].
Qed.

Lemma map_same_columns {B : Type} (f : QInfo.row -> B) (rows rows' : list QInfo.row) :
  (forall r r',
      QInfo.JOBDESC r = QInfo.JOBDESC r'
      /\ QInfo.NODE_HOURS r = QInfo.NODE_HOURS r'
      /\ QInfo.GPU r = QInfo.GPU r'
      /\ QInfo.STATE r = QInfo.STATE r' -> f r = f r') ->
  Forall2 (fun r r' =>
             QInfo.JOBDESC r = QInfo.JOBDESC r'
             /\ QInfo.NODE_HOURS r = QInfo.NODE_HOURS r'
             /\ QInfo.GPU r = QInfo.GPU r'
             /\ QInfo.STATE r = QInfo.STATE r') rows rows' ->
  map f rows = map f rows'.
Proof.
  intros Hf H. induction H as [| r r' rows rows' Hr _ IH]; [reflexivity |].
  cbn [map]. rewrite (Hf r r' Hr), IH. reflexivity.
Qed.

(** X16.  [summarize_qinfo] reads the columns JOBDESC, NODE_HOURS, GPU and
    STATE and nothing else: two tables that agree on these, row by row,
    have the same summary or raise the same exception. *)
Theorem summary_reads_four_columns (qinfo qinfo' : QInfo.table) :
  Forall2 (fun r r' =>
             QInfo.JOBDESC r = QInfo.JOBDESC r'
             /\ QInfo.NODE_HOURS r = QInfo.NODE_HOURS r'
             /\ QInfo.GPU r = QInfo.GPU r'
             /\ QInfo.STATE r = QInfo.STATE r')
          (QInfo.rows qinfo) (QInfo.rows qinfo') ->
  summarize_qinfo qinfo = summarize_qinfo qinfo'.
Proof.
  intros H. unfold summarize_qinfo.
  rewrite (map_same_columns QInfo.NODE_HOURS _ _
             ltac:(intros r r' (_ & Hn & _ & _); exact Hn) H).
  f_equal. apply mapM_ext. intros c _. unfold summary_row.
  pose proof (filter_same_columns c _ _ H) as Hsel.
  rewrite (map_same_columns QInfo.GPU _ _
             ltac:(intros r r' (_ & _ & Hg & _); exact Hg) Hsel).
  rewrite (map_same_columns QInfo.NODE_HOURS _ _
             ltac:(intros r r' (_ & Hn & _ & _); exact Hn) Hsel).
  assert (Hst : forall state,
             map (fun r => String.eqb (QInfo.STATE r) state)
                 (filter (fun r => String.eqb (QInfo.JOBDESC r) c) (QInfo.rows qinfo))
             = map (fun r => String.eqb (QInfo.STATE r) state)
                   (filter (fun r => String.eqb (QInfo.JOBDESC r) c)
                           (QInfo.rows qinfo'))).
  { intros state. apply map_same_columns; [| exact Hsel].
    intros r r' (_ & _ & _ & Hs). rewrite Hs. reflexivity. }
  cbn [map jobstates]. rewrite !Hst. reflexivity.
Qed.

(** * The command line *)

Section MainProperties.

Context {world : Collaborators} {files : TableFiles}.

(** X17.  [main] writes the table of jobs before it summarizes it: when a
    job description of the fixed list has no row, the output file has
    been written, and then [main] fails with [IndexError], without a
    summary written or printed. *)
Theorem output_is_written_before_the_summary_fails (args : Namespace)
  (qinfo : QInfo.table) (filename jobdesc : string) :
  match input args with
  | Some name => Table_read name
  | None => lift (load_qinfo (specprod args))
  end = Returned qinfo ->
  output args = Some filename ->
  qinfo_write qinfo filename (overwrite args) = Returned tt ->
  In jobdesc jobdescs ->
  (forall r, In r (QInfo.rows qinfo) -> QInfo.JOBDESC r <> jobdesc) ->
  main args
  = ([WroteQinfo filename (overwrite args) qinfo], Failed (Python IndexError)).
Proof.
  intros Hq Hout Hw Hin Hnone.
  assert (Hs : summarize_qinfo qinfo = Raise IndexError).
  { apply (summarize_missing_raises qinfo jobdesc Hin).
    intros [r [Hr Hc]]. exact (Hnone r Hr Hc). }
  unfold main. rewrite Hq. cbn [quiet io_bind]. rewrite Hout, Hw, Hs. reflexivity.
Qed.

(** X18.  [main] prints the summary after it has written it: when the
    file of the summary is refused, nothing is printed, although the
    summary was computed and the table of jobs was written. *)
Theorem summary_is_not_printed_when_its_file_is_refused (args : Namespace)
  (qinfo : QInfo.table) (t : Summary.table) (filename : string) (f : failure) :
  match input args with
  | Some name => Table_read name
  | None => lift (load_qinfo (specprod args))
  end = Returned qinfo ->
  (forall name, output args = Some name ->
                qinfo_write qinfo name (overwrite args) = Returned tt) ->
  summarize_qinfo qinfo = OK t ->
  summary args = Some filename ->
  summary_write t filename (overwrite args) = Failed f ->
  main args
  = (match output args with
     | Some name => [WroteQinfo name (overwrite args) qinfo]
     | None => []
     end, Failed f).
Proof.
  intros Hq Hw Hs Hsum Hf. unfold main. rewrite Hq. cbn [quiet io_bind].
  rewrite Hs, Hsum.
  destruct (output args) as [name |].
  - rewrite (Hw name eq_refl). cbn [quiet doing io_bind lift]. rewrite Hf. reflexivity.
  - cbn [quiet doing io_bind lift]. rewrite Hf. reflexivity.
Qed.

(** X19.  When nothing fails, [main] writes the table of jobs if an output
    is named, writes the summary if a file for it is named, prints the
    summary and, with [debug], starts the interactive shell, in this
    order; without the two names it writes nothing. *)
Theorem main_events (args : Namespace) (qinfo : QInfo.table) (t : Summary.table) :
  match input args with
  | Some name => Table_read name
  | None => lift (load_qinfo (specprod args))
  end = Returned qinfo ->
  (forall name, output args = Some name ->
                qinfo_write qinfo name (overwrite args) = Returned tt) ->
  summarize_qinfo qinfo = OK t ->
  (forall name, summary args = Some name ->
                summary_write t name (overwrite args) = Returned tt) ->
  main args
  = ((match output args with
      | Some name => [WroteQinfo name (overwrite args) qinfo]
      | None => []
      end
      ++ match summary args with
         | Some name => [WroteSummary name (overwrite args) t]
         | None => []
         end
      ++ [Printed t]
      ++ if debug args then [Embedded] else [])%list, Returned tt).
Proof.
  intros Hq Hw Hs Hsw. unfold main. rewrite Hq. cbn [quiet io_bind]. rewrite Hs.
  destruct (output args) as [oname |]; [rewrite (Hw oname eq_refl) |];
    cbn [quiet doing io_bind lift];
    (destruct (summary args) as [sname |]; [rewrite (Hsw sname eq_refl) |]);
    destruct (debug args); reflexivity.
Qed.

End MainProperties.

(** X20.  With an input file, [main] does not load from the production:
    what it does is the same whatever the processing tables, the logs,
    the queue and the environment are. *)
Theorem main_with_input_asks_no_queue (w1 w2 : Collaborators) (files : TableFiles)
  (args : Namespace) (filename : string) :
  input args = Some filename ->
  @main w1 files args = @main w2 files args.
Proof.
  intros H. unfold main. rewrite H. reflexivity.
Qed.

(** * The further properties at work on the small production *)

Lemma load_qinfo_whatever_the_listing_order_witness :
  @load_proctables (sample_world good_logs) None
  = @load_proctables (sample_world (rev good_logs)) None
  /\ @get_zpix_qids (sample_world good_logs) None
     = @get_zpix_qids (sample_world (rev good_logs)) None
  /\ @load_qinfo (sample_world good_logs) None
     = @load_qinfo (sample_world (rev good_logs)) None.
Proof.
  apply (load_qinfo_whatever_the_listing_order
           (sample_world good_logs) (sample_world (rev good_logs)) None);
    try reflexivity.
  intros pattern. cbn [glob sample_world].
  destruct (String.eqb pattern
              "/prod/processing_tables/processing_table_prod-202?????.csv");
    [reflexivity |].
  destruct (String.eqb pattern "/prod/run/scripts/healpix/*/*/*/zpix-*.log");
    [apply Permutation_rev | reflexivity].
Defined.


Lemma queue_columns_kept_witness :
  exists jobdesc_qids answers,
    @jobdesc_qids_of (sample_world good_logs) None = OK jobdesc_qids /\
    Forall2 (fun entry records =>
               @queue_info_from_qids (sample_world good_logs) (snd entry) = OK records)
            jobdesc_qids answers /\
    map QInfo.JOBID (QInfo.rows sample_qinfo)
    = map Queue.JOBID (List.concat answers) /\
    Forall2 (fun r row =>
               QInfo.JOBDESC row = snd r
               /\ QInfo.JOBID row = Queue.JOBID (fst r)
               /\ QInfo.JOBNAME row = Queue.JOBNAME (fst r)
               /\ QInfo.PARTITION row = Queue.PARTITION (fst r)
               /\ QInfo.CONSTRAINTS row = Queue.CONSTRAINTS (fst r)
               /\ QInfo.NNODES row = Queue.NNODES (fst r)
               /\ QInfo.SUBMIT row = Queue.SUBMIT (fst r)
               /\ QInfo.ELIGIBLE row = Queue.ELIGIBLE (fst r)
               /\ QInfo.START row = Queue.START (fst r)
               /\ QInfo.END_ row = Queue.END_ (fst r)
               /\ QInfo.ELAPSED row = Queue.ELAPSED (fst r)
               /\ QInfo.EXITCODE row = Queue.EXITCODE (fst r))
            (stacked jobdesc_qids answers) (QInfo.rows sample_qinfo).
Proof.
  apply (@queue_columns_kept (sample_world good_logs) None sample_qinfo).
  vm_compute. reflexivity.
Defined.

Lemma node_hours_of_elapsed_witness :
  Forall (fun row =>
            exists hours,
              hhmmss2hours (QInfo.ELAPSED row) = OK hours
              /\ QInfo.NODE_HOURS row
                 = Np.round (hours * inject_Z (QInfo.NNODES row)) 4
              /\ Qabs (QInfo.NODE_HOURS row - hours * inject_Z (QInfo.NNODES row))
                 <= 1 # 20000)
         (QInfo.rows sample_qinfo).
Proof.
  apply (@node_hours_of_elapsed (sample_world good_logs) None sample_qinfo).
  vm_compute. reflexivity.
Defined.

Lemma specprod_of_the_table_witness :
  exists name,
    QInfo.meta sample_qinfo = [("SPECPROD", name)]
    /\ @environ (sample_world good_logs) "SPECPROD" = Some name.
Proof.
  apply (@specprod_of_the_table (sample_world good_logs) None sample_qinfo).
  vm_compute. reflexivity.
Defined.

Lemma queue_failure_propagates_witness :
  exists e', @load_qinfo forgetful_world None = Raise e'.
Proof.
  apply (@queue_failure_propagates forgetful_world None
           [(PyStr "arc", [1; 2]); (PyStr "zpix", [7])]%Z (PyStr "zpix") [7]%Z KeyError).
  - vm_compute. reflexivity.
  - right. left. reflexivity.
  - reflexivity.
Defined.

Lemma summary_needs_the_jobdesc_in_the_tables_witness :
  summarize_qinfo sample_qinfo = Raise IndexError.
Proof.
  apply (@summary_needs_the_jobdesc_in_the_tables (sample_world good_logs) None
           sample_qinfo "linkcal").
  - vm_compute. reflexivity.
  - left. reflexivity.
  - discriminate.
  - vm_compute. reflexivity.
Defined.

(** The zpix job on a GPU comes first, so zpix is reported as gpu although
    its other job is on a CPU. *)
Lemma cpugpu_of_the_first_row_witness :
  exists row,
    In row (Summary.rows (summary_of (table_of mixed_jobs)))
    /\ Summary.lookup (Summary.names (summary_of (table_of mixed_jobs))) row "JOBDESC"
       = Some (Summary.Str "zpix")
    /\ Summary.lookup (Summary.names (summary_of (table_of mixed_jobs))) row "CPUGPU"
       = Some (Summary.Str "gpu").
Proof.
  refine (cpugpu_of_the_first_row (table_of mixed_jobs)
            (summary_of (table_of mixed_jobs)) "zpix"
            (hd no_row (QInfo.rows (table_of mixed_jobs)))
            [last (QInfo.rows (table_of mixed_jobs)) no_row]
            _ _ _).
  - vm_compute. reflexivity.
  - simpl. tauto.
  - vm_compute. reflexivity.
Defined.

Lemma summary_whatever_the_row_order_witness :
  exists t',
    summarize_qinfo (reversed (table_of mixed_jobs)) = OK t'
    /\ Summary.names t' = Summary.names (summary_of (table_of mixed_jobs))
    /\ Forall2 (fun row row' =>
                  forall name,
                    name <> "CPUGPU" -> name <> "NODE_HOURS" -> name <> "PERCENT" ->
                    Summary.lookup (Summary.names (summary_of (table_of mixed_jobs)))
                                   row name
                    = Summary.lookup (Summary.names (summary_of (table_of mixed_jobs)))
                                     row' name)
               (Summary.rows (summary_of (table_of mixed_jobs))) (Summary.rows t').
Proof.
  apply (summary_whatever_the_row_order (table_of mixed_jobs)
           (reversed (table_of mixed_jobs))).
  - vm_compute. reflexivity.
  - apply Permutation_rev.
Defined.

(** The CPUGPU column does depend on the order of the rows. *)
Example cpugpu_depends_on_the_row_order :
  Summary.column summary_names (Summary.rows (summary_of (table_of mixed_jobs)))
                 "CPUGPU"
  <> Summary.column summary_names
                    (Summary.rows (summary_of (reversed (table_of mixed_jobs))))
                    "CPUGPU".
Proof. vm_compute. discriminate. Qed.

Lemma state_counts_of_the_summary_witness :
  Forall2 (fun jobdesc row =>
             exists completed timeout failed cancelled node_fail,
               Summary.lookup (Summary.names (summary_of (table_of mixed_jobs))) row
                              "COMPLETED"
               = Some (Summary.Int completed)
               /\ Summary.lookup (Summary.names (summary_of (table_of mixed_jobs))) row
                                 "TIMEOUT"
                  = Some (Summary.Int timeout)
               /\ Summary.lookup (Summary.names (summary_of (table_of mixed_jobs))) row
                                 "FAILED"
                  = Some (Summary.Int failed)
               /\ Summary.lookup (Summary.names (summary_of (table_of mixed_jobs))) row
                                 "CANCELLED"
                  = Some (Summary.Int cancelled)
               /\ Summary.lookup (Summary.names (summary_of (table_of mixed_jobs))) row
                                 "NODE_FAIL"
                  = Some (Summary.Int node_fail)
               /\ (completed + timeout + failed + cancelled + node_fail
                   = Z.of_nat
                       (List.length
                          (filter (fun r =>
                                     String.eqb (QInfo.JOBDESC r) jobdesc
                                     && existsb (String.eqb (QInfo.STATE r)) jobstates)
                                  (QInfo.rows (table_of mixed_jobs)))))%Z
               /\ (completed + timeout + failed + cancelled + node_fail
                   <= Z.of_nat
                        (List.length
                           (filter (fun r => String.eqb (QInfo.JOBDESC r) jobdesc)
                                   (QInfo.rows (table_of mixed_jobs)))))%Z)
          jobdescs (Summary.rows (summary_of (table_of mixed_jobs))).
Proof.
  apply (state_counts_of_the_summary (table_of mixed_jobs)).
  vm_compute. reflexivity.
Defined.

Lemma summary_reads_four_columns_witness :
  summarize_qinfo (table_of mixed_jobs)
  = summarize_qinfo {| QInfo.rows := QInfo.rows (table_of mixed_jobs);
                       QInfo.meta := [] |}.
Proof.
  apply (summary_reads_four_columns (table_of mixed_jobs)).
  cbn [QInfo.rows].
  induction (QInfo.rows (table_of mixed_jobs)); constructor; auto.
Defined.

Lemma output_is_written_before_the_summary_fails_witness :
  @main (sample_world good_logs) (sample_files sample_qinfo [])
        (sample_args None (Some "jobs.fits") (Some "summary.csv") false)
  = ([WroteQinfo "jobs.fits" false sample_qinfo], Failed (Python IndexError)).
Proof.
  apply (@output_is_written_before_the_summary_fails
           (sample_world good_logs) (sample_files sample_qinfo [])
           (sample_args None (Some "jobs.fits") (Some "summary.csv") false)
           sample_qinfo "jobs.fits" "linkcal").
  - vm_compute. reflexivity.
  - reflexivity.
  - reflexivity.
  - left. reflexivity.
  - intros r H. vm_compute in H.
    destruct H as [<- | [<- | [<- | []]]]; discriminate.
Defined.

Lemma summary_is_not_printed_when_its_file_is_refused_witness :
  @main (sample_world good_logs)
        (sample_files (table_of mixed_jobs) ["summary.csv"])
        (sample_args (Some "jobs.fits") None (Some "summary.csv") false)
  = ([], Failed OSError).
Proof.
  apply (@summary_is_not_printed_when_its_file_is_refused
           (sample_world good_logs)
           (sample_files (table_of mixed_jobs) ["summary.csv"])
           (sample_args (Some "jobs.fits") None (Some "summary.csv") false)
           (table_of mixed_jobs) (summary_of (table_of mixed_jobs)) "summary.csv").
  - reflexivity.
  - intros name H. discriminate.
  - vm_compute. reflexivity.
  - reflexivity.
  - reflexivity.
Defined.

Lemma main_events_witness :
  @main (sample_world good_logs)
        (sample_files (table_of mixed_jobs) ["summary.csv"])
        (sample_args (Some "jobs.fits") (Some "copy.fits") (Some "summary.csv") true)
  = ([WroteQinfo "copy.fits" true (table_of mixed_jobs);
      WroteSummary "summary.csv" true (summary_of (table_of mixed_jobs));
      Printed (summary_of (table_of mixed_jobs))], Returned tt).
Proof.
  apply (@main_events
           (sample_world good_logs)
           (sample_files (table_of mixed_jobs) ["summary.csv"])
           (sample_args (Some "jobs.fits") (Some "copy.fits") (Some "summary.csv") true)
           (table_of mixed_jobs) (summary_of (table_of mixed_jobs))).
  - reflexivity.
  - intros name H. inversion H. reflexivity.
  - vm_compute. reflexivity.
  - intros name H. inversion H. reflexivity.
Defined.

Lemma main_with_input_asks_no_queue_witness :
  @main (sample_world good_logs) (sample_files sample_qinfo [])
        (sample_args (Some "jobs.fits") None None false)
  = @main forgetful_world (sample_files sample_qinfo [])
          (sample_args (Some "jobs.fits") None None false).
Proof.
  apply (main_with_input_asks_no_queue (sample_world good_logs) forgetful_world
           (sample_files sample_qinfo [])
           (sample_args (Some "jobs.fits") None None false) "jobs.fits").
  reflexivity.
Defined.
